(** * Verification of the SDRIG SDK protocol and device core

    A shallow embedding of the parts of the SDRIG Python SDK that carry
    its protocol and control logic:
    - [sdrig/protocol/can_protocol.py]: J1939 identifier algebra;
    - [sdrig/transport/avtp_acf.py]: ACF-CAN Brief block framer and parser;
    - [sdrig/devices/device_uio.py], [device_eload.py]: device shadows,
      setters, change detection and periodic tasks;
    - [sdrig/utils/task_monitor.py]: the periodic task scheduler;
    - [sdrig/sdk.py]: the facade and its connected-device map.

    Python integers are modelled as [Z] (unbounded, like Python's),
    Python floats as [Q] compared with [Qeq_bool]/[Qle_bool], except the
    scheduler's clock and periods, which are IEEE doubles (Rocq's
    primitive floats) so that its rounding is the program's; bytes as
    [list Z] of values in 0..255, dicts as stdpp [gmap]s. *)

From Stdlib Require Import ZArith QArith Qround Lia Btauto Floats.
From stdpp Require Import base gmap list strings.

Open Scope Z_scope.
#[local] Set Warnings "-inexact-float".

(* ================================================================= *)
(** ** Identifier algebra ([can_protocol.py]) *)

Module CanProtocol.

(** [PGN] of [types/enums.py]: an [IntEnum]; several members share a value. *)
Inductive PGN :=
  | MODULE_INFO_REQ | MODULE_INFO | MODULE_INFO_EX | MODULE_INFO_BOOT
  | PIN_INFO
  | OP_MODE_REQ | OP_MODE_ANS
  | VOLTAGE_IN_ANS | VOLTAGE_OUT_VAL_REQ | VOLTAGE_OUT_VAL_ANS
  | CUR_LOOP_IN_VAL_ANS | CUR_LOOP_OUT_VAL_REQ | CUR_LOOP_OUT_VAL_ANS
  | PWM_IN_ANS | PWM_OUT_VAL_REQ | PWM_OUT_VAL_ANS
  | SWITCH_OUTPUT_REQ | SWITCH_OUTPUT_ANS
  | VOLTAGE_ELM_OUT_VAL_REQ | VOLTAGE_ELM_OUT_VAL_ANS | VOLTAGE_ELM_IN_ANS
  | CUR_ELM_IN_VAL_ANS | CUR_ELM_OUT_VAL_REQ | CUR_ELM_OUT_VAL_ANS
  | TEMP_ELM_IN_ANS | SWITCH_ELM_DOUT_REQ | SWITCH_ELM_DOUT_ANS
  | CAN_INFO_REQ | CAN_INFO_ANS | CAN_STATE_ANS | CAN_MUX_REQ | CAN_MUX_ANS
  | LIN_CFG_REQ | LIN_FRAME_SET_REQ | LIN_FRAME_RCVD_ANS.

Definition pgn_value (p : PGN) : Z :=
  match p with
  | MODULE_INFO_REQ => 0x000FE | MODULE_INFO => 0x001FE
  | MODULE_INFO_EX => 0x008FE | MODULE_INFO_BOOT => 0x002FE
  | PIN_INFO => 0x010FE
  | OP_MODE_REQ => 0x121FE | OP_MODE_ANS => 0x120FE
  | VOLTAGE_IN_ANS => 0x114FE | VOLTAGE_OUT_VAL_REQ => 0x116FE
  | VOLTAGE_OUT_VAL_ANS => 0x117FE
  | CUR_LOOP_IN_VAL_ANS => 0x128FE | CUR_LOOP_OUT_VAL_REQ => 0x126FE
  | CUR_LOOP_OUT_VAL_ANS => 0x127FE
  | PWM_IN_ANS => 0x122FE | PWM_OUT_VAL_REQ => 0x112FE
  | PWM_OUT_VAL_ANS => 0x113FE
  | SWITCH_OUTPUT_REQ => 0x123FE | SWITCH_OUTPUT_ANS => 0x124FE
  | VOLTAGE_ELM_OUT_VAL_REQ => 0x116FE | VOLTAGE_ELM_OUT_VAL_ANS => 0x117FE
  | VOLTAGE_ELM_IN_ANS => 0x114FE
  | CUR_ELM_IN_VAL_ANS => 0x12AFE | CUR_ELM_OUT_VAL_REQ => 0x129FE
  | CUR_ELM_OUT_VAL_ANS => 0x12BFE
  | TEMP_ELM_IN_ANS => 0x12EFE | SWITCH_ELM_DOUT_REQ => 0x12CFE
  | SWITCH_ELM_DOUT_ANS => 0x12DFE
  | CAN_INFO_REQ => 0x021FE | CAN_INFO_ANS => 0x020FE
  | CAN_STATE_ANS => 0x022FE | CAN_MUX_REQ => 0x028FE | CAN_MUX_ANS => 0x029FE
  | LIN_CFG_REQ => 0x040FE | LIN_FRAME_SET_REQ => 0x042FE
  | LIN_FRAME_RCVD_ANS => 0x043FE
  end.

Definition is_j1939 (can_id : Z) : bool := 0x7FF <? can_id.

Definition is_pdu1_format (can_id : Z) : bool :=
  Z.land (Z.shiftr can_id 16) 0xFF <? 0xF0.

Definition extract_pgn (can_id : Z) : Z :=
  if is_pdu1_format can_id
  then Z.lor (Z.land (Z.shiftr can_id 8) 0x3FF00) 0x000FE
  else Z.land (Z.shiftr can_id 8) 0x3FFFF.

Definition normalize_can_id_for_dbc (can_id : Z) : Z :=
  if negb (is_j1939 can_id) then can_id
  else
    let normalized :=
      if is_pdu1_format can_id
      then Z.lor (Z.land can_id 0xFFFF0000) 0xFEFE
      else Z.lor (Z.land can_id 0xFFFFFF00) 0xFE in
    Z.lor normalized 0x80000000.

Definition extract_source_address (can_id : Z) : Z := Z.land can_id 0xFF.

Definition extract_priority (can_id : Z) : Z := Z.land (Z.shiftr can_id 26) 0x07.

Definition build_j1939_id (pgn source_addr destination_addr priority : Z) : Z :=
  let pf := Z.land (Z.shiftr pgn 8) 0xFF in
  if pf <? 0xF0
  then Z.lor (Z.lor (Z.lor (Z.shiftl (Z.land priority 0x07) 26)
                           (Z.shiftl (Z.land pgn 0x3FF00) 8))
                    (Z.shiftl (Z.land destination_addr 0xFF) 8))
             (Z.land source_addr 0xFF)
  else Z.lor (Z.lor (Z.shiftl (Z.land priority 0x07) 26)
                    (Z.shiftl (Z.land pgn 0x3FFFF) 8))
             (Z.land source_addr 0xFF).

(** [prepare_can_id]: unwraps the enum and builds the identifier. *)
Definition prepare_can_id (pgn : PGN) (source_addr destination_addr priority : Z) : Z :=
  build_j1939_id (pgn_value pgn) source_addr destination_addr priority.

(** [parse_can_id]: [(priority, pgn, source_addr)]. *)
Definition parse_can_id (can_id : Z) : Z * Z * Z :=
  (extract_priority can_id, extract_pgn can_id, extract_source_address can_id).

(** The CAN-FD length / DLC tables. *)
Definition get_dlc_from_length (data_length : Z) : Z :=
  if data_length <=? 8 then data_length
  else if data_length <=? 12 then 9
  else if data_length <=? 16 then 10
  else if data_length <=? 20 then 11
  else if data_length <=? 24 then 12
  else if data_length <=? 32 then 13
  else if data_length <=? 48 then 14
  else if data_length <=? 64 then 15
  else 15.

Definition get_length_from_dlc (dlc : Z) : Z :=
  if dlc <=? 8 then dlc
  else if dlc =? 9 then 12
  else if dlc =? 10 then 16
  else if dlc =? 11 then 20
  else if dlc =? 12 then 24
  else if dlc =? 13 then 32
  else if dlc =? 14 then 48
  else if dlc =? 15 then 64
  else 8.

End CanProtocol.

(* ================================================================= *)
(** ** ACF-CAN Brief framer and parser ([transport/avtp_acf.py]) *)

Module AvtpAcf.

(** [struct.pack] in network byte order; [None] is the [struct.error]
    raised for an out-of-range value. *)
Definition pack_B (x : Z) : option (list Z) :=
  if (0 <=? x) && (x <? 2 ^ 8) then Some [x] else None.

Definition pack_H (x : Z) : option (list Z) :=
  if (0 <=? x) && (x <? 2 ^ 16)
  then Some [Z.land (Z.shiftr x 8) 0xFF; Z.land x 0xFF] else None.

Definition pack_I (x : Z) : option (list Z) :=
  if (0 <=? x) && (x <? 2 ^ 32)
  then Some [Z.land (Z.shiftr x 24) 0xFF; Z.land (Z.shiftr x 16) 0xFF;
             Z.land (Z.shiftr x 8) 0xFF; Z.land x 0xFF] else None.

(** [struct.unpack_from("!H", b, off)[0]]. *)
Definition unpack_H (b : list Z) (off : nat) : Z :=
  Z.lor (Z.shiftl (nth off b 0) 8) (nth (S off) b 0).

(** [while len(b) % 4: b += b"\x00"]; three rounds always suffice. *)
Fixpoint pad_loop (fuel : nat) (b : list Z) : list Z :=
  match fuel with
  | O => b
  | S f => if Nat.eqb (length b mod 4) 0 then b else pad_loop f (b ++ [0])
  end.

Definition build_acf_can_brief (bus_id msg_id : Z) (data : list Z)
    (eff fdf brs ts_valid : bool) : option (list Z) :=
  let msg_type := 2 in
  let flags := Z.lor (Z.lor (Z.lor (Z.lor 0x00 (if ts_valid then 0x20 else 0))
                                   (if eff then 0x08 else 0))
                            (if brs then 0x04 else 0))
                     (if fdf then 0x02 else 0) in
  let data := take 64 data in
  let header_bytes := 2 + 1 + 1 + 4 in
  let quadlets := (header_bytes + Z.of_nat (length data) + 3) / 4 in
  let header := Z.lor (Z.shiftl (Z.land msg_type 0x7F) 9) (Z.land quadlets 0x1FF) in
  match pack_H header, pack_B flags, pack_B (Z.land bus_id 0x1F), pack_I msg_id with
  | Some h, Some f, Some bi, Some i => Some (pad_loop 3 (h ++ f ++ bi ++ i ++ data))
  | _, _, _, _ => None
  end.

(** [parse_can_brief]; [None] is the [ValueError] for a short block.
    The result is [(bus_id, can_id, flags, data, msg_type)]. *)
Definition parse_can_brief (block : list Z) : option (Z * Z * Z * list Z * Z) :=
  if Nat.ltb (length block) 8 then None
  else
    let header := unpack_H block 0 in
    let msg_type := Z.land (Z.shiftr header 9) 0x7F in
    let flags := nth 2 block 0 in
    let bus_id := Z.land (nth 3 block 0) 0x1F in
    let can_id := Z.lor (Z.lor (Z.lor (Z.shiftl (Z.land (nth 4 block 0) 0x1F) 24)
                                      (Z.shiftl (nth 5 block 0) 16))
                               (Z.shiftl (nth 6 block 0) 8))
                        (nth 7 block 0) in
    let data := drop 8 block in
    Some (bus_id, can_id, flags, data, msg_type).

(** [iter_acf_blocks]: split a payload into self-delimited blocks. *)
Fixpoint iter_acf_blocks_fuel (fuel : nat) (payload : list Z) : list (list Z) :=
  match fuel with
  | O => []
  | S f =>
      if Nat.leb 2 (length payload) then
        let header := unpack_H payload 0 in
        let quadlets := Z.land header 0x1FF in
        let len := quadlets * 4 in
        if (len <=? 0) || (Z.of_nat (length payload) <? len) then []
        else take (Z.to_nat len) payload
               :: iter_acf_blocks_fuel f (drop (Z.to_nat len) payload)
      else []
  end.

Definition iter_acf_blocks (payload : list Z) : list (list Z) :=
  iter_acf_blocks_fuel (length payload) payload.

(** [bundle_acf]: [b"".join(blocks)]. *)
Definition bundle_acf (blocks : list (list Z)) : list Z := concat blocks.

End AvtpAcf.

(* ================================================================= *)
(** ** Device core ([types/enums.py], [devices/device_sdr.py]) *)

(** [Feature] and [FeatureState] are [IntEnum]s; they live in modules of
    their own since both have an [UNKNOWN] member. *)
Module Feature.
Inductive t := UNKNOWN | GET_VOLTAGE | SET_VOLTAGE | GET_CURRENT | SET_CURRENT
             | GET_PWM | SET_PWM.
Definition value (f : t) : Z :=
  match f with
  | UNKNOWN => 0 | GET_VOLTAGE => 1 | SET_VOLTAGE => 2 | GET_CURRENT => 3
  | SET_CURRENT => 4 | GET_PWM => 5 | SET_PWM => 6
  end.
End Feature.

Module FeatureState.
Inductive t := UNKNOWN | IDLE | DISABLED | OPERATE | WARNING | ERROR.
Definition value (s : t) : Z :=
  match s with
  | UNKNOWN => 0 | IDLE => 1 | DISABLED => 2 | OPERATE => 3 | WARNING => 4 | ERROR => 5
  end.
#[global] Instance t_eq_dec : EqDecision t.
Proof. solve_decision. Defined.
End FeatureState.

Module RelayState.
Inductive t := OPEN | CLOSED | UNKNOWN.
End RelayState.

Module Device.
Import CanProtocol.

(** The data dictionary handed to [send_can_message], by message kind:
    the six MODULE_INFO request flags; the OP_MODE signals keyed by
    [(prefix, pin + 1)]; the eight [*_value] signals of a value request;
    the eight PWM triples; the [sel_*] / [dout_*] switch flags in the
    order the code fills them. *)
Inductive payload :=
  | ModuleInfoData (flags : list Z)
  | OpModeData (signals : gmap (string * Z) Z)
  | ValueData (values : list Q)
  | PwmData (values : list (Q * Q * Q))
  | SwitchData (flags : list Z).

Definition message : Type := PGN * payload.

(** The exceptions of the modelled code: [ValueError] of the range checks,
    [IndexError] of a list assignment out of range, and [SendError] for
    whatever [send_can_message] raises (encoding or transport). *)
Inductive exn := ValueError | IndexError | SendError.

(** A state and exception monad: an exception keeps the state reached
    when it is raised, as Python's mutations are not rolled back. *)
Definition M (S A : Type) : Type := S -> (exn + A) * S.

#[global] Instance M_ret {S} : MRet (M S) := fun A x s => (inr x, s).
#[global] Instance M_bind {S} : MBind (M S) :=
  fun A B f m s => match m s with
                   | (inl e, s') => (inl e, s')
                   | (inr a, s') => f a s'
                   end.

Definition raise {S A} (e : exn) : M S A := fun s => (inl e, s).
Definition get {S} : M S S := fun s => (inr s, s).
Definition modify {S} (f : S -> S) : M S unit := fun s => (inr tt, f s).

(** [try: m except Exception: log]: the handler only logs. *)
Definition try_except {S} (m : M S unit) : M S unit :=
  fun s => match m s with
           | (inl _, s') => (inr tt, s')
           | r => r
           end.

(** Python's [l[i] = x] for [0 <= i]: [IndexError] past the end. *)
Definition setitem {A} (l : list A) (i : nat) (x : A) : exn + list A :=
  if Nat.ltb i (length l) then inr (<[i := x]> l) else inl IndexError.

(** Python's [==] on two lists of floats. *)
Fixpoint list_Qeqb (l1 l2 : list Q) : bool :=
  match l1, l2 with
  | [], [] => true
  | x :: l1', y :: l2' => Qeq_bool x y && list_Qeqb l1' l2'
  | _, _ => false
  end.

Definition triple_Qeqb (a b : Q * Q * Q) : bool :=
  match a, b with
  | (f1, d1, v1), (f2, d2, v2) => Qeq_bool f1 f2 && Qeq_bool d1 d2 && Qeq_bool v1 v2
  end.

Fixpoint list_triple_eqb (l1 l2 : list (Q * Q * Q)) : bool :=
  match l1, l2 with
  | [], [] => true
  | x :: l1', y :: l2' => triple_Qeqb x y && list_triple_eqb l1' l2'
  | _, _ => false
  end.

(** [feature_map] of [_send_op_mode_req], on the [IntEnum] key. *)
Definition feature_map (f : Z) : option string :=
  match f with
  | 1 => Some "vlt_i"%string | 2 => Some "vlt_o"%string
  | 3 => Some "cur_i"%string | 4 => Some "cur_o"%string
  | 5 => Some "icu"%string | 6 => Some "pwm"%string
  | _ => None
  end.

(** The [data] dict of [_send_op_mode_req] (the same in every device):
    each of [signals] defaults to 2 (DISABLED), then each stored mode of a
    mapped feature overwrites its signal [(prefix, pin + 1)] when that
    signal exists. *)
Definition op_mode_data (signals : list (string * Z))
    (op_modes : gmap nat (gmap Z FeatureState.t)) : gmap (string * Z) Z :=
  map_fold (fun pin_num modes acc =>
      map_fold (fun feature state acc =>
          match feature_map feature with
          | Some prefix =>
              let signal_name := (prefix, Z.of_nat pin_num + 1) in
              if bool_decide (is_Some (acc !! signal_name))
              then <[signal_name := FeatureState.value state]> acc else acc
          | None => acc
          end) acc modes)
    (list_to_map (map (fun sig => (sig, 2)) signals)) op_modes.

(** [DeviceSDR]: the base class owns the outbound path; a device state
    records the messages handed to the transport. *)
Class DeviceSDR (S : Type) := {
  sent : S -> list message;
  set_sent : list message -> S -> S
}.

Section Send.
Context {S : Type} `{DeviceSDR S}.
(** Whether encoding and transmission of a message succeed. *)
Variable send_ok : message -> bool.

Definition send_can_message (pgn : PGN) (data : payload) : M S unit :=
  fun s => if send_ok (pgn, data)
           then (inr tt, set_sent (sent s ++ [(pgn, data)]) s)
           else (inl SendError, s).

Definition request_module_info : M S unit :=
  try_except (send_can_message MODULE_INFO_REQ (ModuleInfoData [0; 0; 0; 0; 0; 0])).
End Send.

End Device.

(* ================================================================= *)
(** ** Periodic task scheduler ([utils/task_monitor.py]) *)

Module TaskMonitor.
Import Device.

(** [float(z)] of a Python int: the nearest double (exact below 2^53;
    the conversion is for [|z| < 2^63], which covers every period). *)
Definition float_of_Z (z : Z) : float :=
  if z <? 0 then PrimFloat.opp (PrimFloat.of_uint63 (Uint63.of_Z (- z)))
  else PrimFloat.of_uint63 (Uint63.of_Z z).

(** [time.time()] read at the instant [us] microseconds after the epoch:
    the double nearest to [us / 1e6] seconds. *)
Definition clock (us : Z) : float := (float_of_Z us / 1e6)%float.

(** Times ([last_run], the loop's [current_time]) are [time.time()]
    doubles; the due test [(current_time - task.last_run) >= period_sec]
    with [period_sec = task.period_us / 1e6] is computed in doubles. *)
Record Task (C : Type) := mk_task {
  name : string; callback : C; period_us : Z;
  last_run : float; enabled : bool; error_count : Z }.
Arguments mk_task {C}.
Arguments name {C}. Arguments callback {C}. Arguments period_us {C}.
Arguments last_run {C}. Arguments enabled {C}. Arguments error_count {C}.

Definition set_last_run {C} (x : float) (t : Task C) : Task C :=
  mk_task (name t) (callback t) (period_us t) x (enabled t) (error_count t).
Definition set_enabled {C} (x : bool) (t : Task C) : Task C :=
  mk_task (name t) (callback t) (period_us t) (last_run t) x (error_count t).
Definition set_error_count {C} (x : Z) (t : Task C) : Task C :=
  mk_task (name t) (callback t) (period_us t) (last_run t) (enabled t) x.

(** The lock and callback events of one pass of [_run]. *)
Inductive event := Acquire | Release | Invoke (n : string).

(** [int(x)] of a double: truncation toward zero of [m * 2^e]. [int]
    raises on an infinity or a NaN; the callers pass the literal periods
    4.0, 0.1 and 9.0, and 0 stands for that case. *)
Definition py_int (x : float) : Z :=
  match Prim2SF x with
  | S754_finite s m e =>
      let z := if 0 <=? e then Zpos m * 2 ^ e else Zpos m / 2 ^ (- e) in
      if s then - z else z
  | _ => 0
  end.

Section Monitor.
Context {C W : Type}.
(** What a callback does to the world; an exception is [inl]. *)
Variable run_callback : C -> M W unit.

(** [self.tasks], a dict in insertion order with unique names. *)
Definition tasks : Type := list (Task C).

Definition update_task (n : string) (f : Task C -> Task C) (ts : tasks) : tasks :=
  map (fun t => if String.eqb (name t) n then f t else t) ts.

Definition add_task (n : string) (cb : C) (period : Z) (now : float) (ts : tasks) : tasks :=
  let task := mk_task n cb period now true 0 in
  if existsb (fun t => String.eqb (name t) n) ts
  then update_task n (fun _ => task) ts else ts ++ [task].

Definition add_task_sec (n : string) (cb : C) (period_sec : float) (now : float) (ts : tasks)
    : tasks :=
  add_task n cb (py_int (period_sec * 1e6)%float) now ts.

Definition enable_task (n : string) (ts : tasks) : tasks := update_task n (set_enabled true) ts.
Definition disable_task (n : string) (ts : tasks) : tasks := update_task n (set_enabled false) ts.

(** The collection loop under the lock: due tasks get [last_run = now]. *)
Fixpoint collect (now : float) (ts : tasks) : tasks * list (string * C) :=
  match ts with
  | [] => ([], [])
  | t :: rest =>
      let '(rest', due) := collect now rest in
      if enabled t && (float_of_Z (period_us t) / 1e6 <=? now - last_run t)%float
      then (set_last_run now t :: rest', (name t, callback t) :: due)
      else (t :: rest', due)
  end.

(** Bookkeeping after a callback, under the lock. *)
Definition on_success (t : Task C) : Task C := set_error_count 0 t.
Definition on_error (t : Task C) : Task C :=
  let t := set_error_count (error_count t + 1) t in
  if 10 <=? error_count t then set_enabled false t else t.

(** The callbacks, run outside the lock, each followed by its bookkeeping. *)
Fixpoint execute (due : list (string * C)) (ts : tasks) (w : W) : tasks * W * list event :=
  match due with
  | [] => (ts, w, [])
  | (n, cb) :: rest =>
      let '(r, w') := run_callback cb w in
      let ts' := match r with
                 | inr _ => update_task n on_success ts
                 | inl _ => update_task n on_error ts
                 end in
      let '(ts'', w'', ev) := execute rest ts' w' in
      (ts'', w'', [Invoke n; Acquire; Release] ++ ev)
  end.

(** One pass of the [while self.running] loop, at time [now]. *)
Definition tick (now : float) (ts : tasks) (w : W) : tasks * W * list event :=
  let '(ts1, due) := collect now ts in
  let '(ts2, w2, ev) := execute due ts1 w in
  (ts2, w2, [Acquire; Release] ++ ev).

(** Successive passes at the given times. *)
Fixpoint run_ticks (times : list float) (ts : tasks) (w : W) : tasks * W * list event :=
  match times with
  | [] => (ts, w, [])
  | now :: rest =>
      let '(ts1, w1, ev1) := tick now ts w in
      let '(ts2, w2, ev2) := run_ticks rest ts1 w1 in
      (ts2, w2, ev1 ++ ev2)
  end.

(** [n] passes at the instants [t0], [t0 + dt], [t0 + 2 dt], ...
    microseconds, each reading [clock] there: the loop woken every [dt]
    microseconds (events dropped). *)
Definition run_every (n : positive) (t0 dt : Z) (ts : tasks) (w : W) : tasks * W :=
  let '(_, ts', w') :=
    Pos.iter (fun '(now, ts, w) => let '(ts', w', _) := tick (clock now) ts w in (now + dt, ts', w'))
      (t0, ts, w) n in
  (ts', w').

End Monitor.

(** Whether an event trace uses the (non-reentrant) lock well, starting
    with the lock [held] or free: no acquire while held, no release while
    free, no callback invoked while held, and free at the end. *)
Fixpoint lock_ok (held : bool) (ev : list event) : bool :=
  match ev with
  | [] => negb held
  | Acquire :: rest => if held then false else lock_ok true rest
  | Release :: rest => if held then lock_ok false rest else false
  | Invoke _ :: rest => if held then false else lock_ok held rest
  end.

End TaskMonitor.

(* ================================================================= *)
(** ** UIO device ([devices/device_uio.py]) *)

Module UIO.
Import CanProtocol Device.

(** [_switch_states]: a dict with five fixed keys, each a list of 8 flags. *)
Inductive switch_key := icu | pwm | vlt_o | cur_o | cur_i.
#[global] Instance switch_key_eq_dec : EqDecision switch_key.
Proof. solve_decision. Defined.

Record switches := mk_switches {
  sw_icu : list bool; sw_pwm : list bool; sw_vlt_o : list bool;
  sw_cur_o : list bool; sw_cur_i : list bool }.

Definition switch_get (k : switch_key) (w : switches) : list bool :=
  match k with
  | icu => sw_icu w | pwm => sw_pwm w | vlt_o => sw_vlt_o w
  | cur_o => sw_cur_o w | cur_i => sw_cur_i w
  end.

Definition switch_put (k : switch_key) (l : list bool) (w : switches) : switches :=
  match k with
  | icu => mk_switches l (sw_pwm w) (sw_vlt_o w) (sw_cur_o w) (sw_cur_i w)
  | pwm => mk_switches (sw_icu w) l (sw_vlt_o w) (sw_cur_o w) (sw_cur_i w)
  | vlt_o => mk_switches (sw_icu w) (sw_pwm w) l (sw_cur_o w) (sw_cur_i w)
  | cur_o => mk_switches (sw_icu w) (sw_pwm w) (sw_vlt_o w) l (sw_cur_i w)
  | cur_i => mk_switches (sw_icu w) (sw_pwm w) (sw_vlt_o w) (sw_cur_o w) l
  end.

(** The set values a [Pin]'s [PinState] receives from the setters. *)
Record pin_state := mk_pin_state {
  voltage_set : Q; current_set : Q;
  pwm_frequency_set : Q; pwm_duty_cycle_set : Q; pwm_voltage_set : Q;
  relay_state : RelayState.t }.

(** The fields of a [DeviceUIO] that the setters and the senders use. *)
Record uio := mk_uio {
  _op_modes : gmap nat (gmap Z FeatureState.t);
  _voltages_out : list Q;
  _currents_out : list Q;
  _pwm_out : list (Q * Q * Q);
  _voltages_out_last : list Q;
  _currents_out_last : list Q;
  _pwm_out_last : list (Q * Q * Q);
  _switch_states : switches;
  pins : list pin_state;
  uio_sent : list message }.

Definition set_op_modes x s := mk_uio x (_voltages_out s) (_currents_out s)
  (_pwm_out s) (_voltages_out_last s) (_currents_out_last s) (_pwm_out_last s)
  (_switch_states s) (pins s) (uio_sent s).
Definition set_voltages_out x s := mk_uio (_op_modes s) x (_currents_out s)
  (_pwm_out s) (_voltages_out_last s) (_currents_out_last s) (_pwm_out_last s)
  (_switch_states s) (pins s) (uio_sent s).
Definition set_currents_out x s := mk_uio (_op_modes s) (_voltages_out s) x
  (_pwm_out s) (_voltages_out_last s) (_currents_out_last s) (_pwm_out_last s)
  (_switch_states s) (pins s) (uio_sent s).
Definition set_pwm_out x s := mk_uio (_op_modes s) (_voltages_out s) (_currents_out s)
  x (_voltages_out_last s) (_currents_out_last s) (_pwm_out_last s)
  (_switch_states s) (pins s) (uio_sent s).
Definition set_voltages_out_last x s := mk_uio (_op_modes s) (_voltages_out s)
  (_currents_out s) (_pwm_out s) x (_currents_out_last s) (_pwm_out_last s)
  (_switch_states s) (pins s) (uio_sent s).
Definition set_currents_out_last x s := mk_uio (_op_modes s) (_voltages_out s)
  (_currents_out s) (_pwm_out s) (_voltages_out_last s) x (_pwm_out_last s)
  (_switch_states s) (pins s) (uio_sent s).
Definition set_pwm_out_last x s := mk_uio (_op_modes s) (_voltages_out s)
  (_currents_out s) (_pwm_out s) (_voltages_out_last s) (_currents_out_last s) x
  (_switch_states s) (pins s) (uio_sent s).
Definition set_switch_states x s := mk_uio (_op_modes s) (_voltages_out s)
  (_currents_out s) (_pwm_out s) (_voltages_out_last s) (_currents_out_last s)
  (_pwm_out_last s) x (pins s) (uio_sent s).
Definition set_pins x s := mk_uio (_op_modes s) (_voltages_out s)
  (_currents_out s) (_pwm_out s) (_voltages_out_last s) (_currents_out_last s)
  (_pwm_out_last s) (_switch_states s) x (uio_sent s).

#[global] Instance uio_device : DeviceSDR uio := {
  sent := uio_sent;
  set_sent := fun x s => mk_uio (_op_modes s) (_voltages_out s)
    (_currents_out s) (_pwm_out s) (_voltages_out_last s) (_currents_out_last s)
    (_pwm_out_last s) (_switch_states s) (pins s) x }.

Definition init_pin_state : pin_state := mk_pin_state 0 0 0 0 0 RelayState.UNKNOWN.

(** [DeviceUIO.__init__]. *)
Definition init_uio : uio :=
  mk_uio (list_to_map (map (fun i => (i, ∅)) (seq 0 8)))
    (repeat 0%Q 8) (repeat 0%Q 8) (repeat (0, 0, 5)%Q 8)
    (repeat 0%Q 8) (repeat 0%Q 8) (repeat (0, 0, 5)%Q 8)
    (mk_switches (repeat false 8) (repeat false 8) (repeat false 8)
                 (repeat false 8) (repeat false 8))
    (repeat init_pin_state 8) [].

(** [pin()]: the index check; [None] is the [ValueError]. *)
Definition pin (pin_number : Z) : option nat :=
  if (0 <=? pin_number) && (pin_number <=? 7) then Some (Z.to_nat pin_number) else None.

(** [_OP_MODE_SIGNALS]: [(prefix, i)] stands for the name ["{prefix}_{i}_op_mode"]. *)
Definition _OP_MODE_SIGNALS : list (string * Z) :=
  flat_map (fun prefix => map (fun i => (prefix, i)) [1; 2; 3; 4; 5; 6; 7; 8])
    ["pwm"; "icu"; "vlt_i"; "cur_i"; "vlt_o"; "cur_o"]%string.

(** [feature_to_switch] of [Pin.disable_feature]. *)
Definition feature_to_switch (f : Feature.t) : option switch_key :=
  match f with
  | Feature.SET_VOLTAGE => Some vlt_o | Feature.SET_CURRENT => Some cur_o
  | Feature.SET_PWM => Some pwm | Feature.GET_CURRENT => Some cur_i
  | Feature.GET_PWM => Some icu | _ => None
  end.

Definition switch_prefixes : list switch_key := [icu; pwm; vlt_o; cur_o; cur_i].

Section Device.
Variable send_ok : message -> bool.

(** [self._op_modes[pin][feature] = state], creating the inner dict. *)
Definition _set_op_mode (pin_number : nat) (feature : Feature.t) (state : FeatureState.t)
    : M uio unit :=
  modify (fun s => set_op_modes
    (<[pin_number := <[Feature.value feature := state]>
                       (default ∅ (_op_modes s !! pin_number))]> (_op_modes s)) s).

(** [self._switch_states[key][pin] = b]. *)
Definition assign_switch (k : switch_key) (pin_number : nat) (b : bool) : M uio unit :=
  fun s => match setitem (switch_get k (_switch_states s)) pin_number b with
           | inr l => (inr tt, set_switch_states (switch_put k l (_switch_states s)) s)
           | inl e => (inl e, s)
           end.

(** [self._voltages_out[pin] = v], and likewise for the other value lists. *)
Definition assign_voltages_out (pin_number : nat) (v : Q) : M uio unit :=
  fun s => match setitem (_voltages_out s) pin_number v with
           | inr l => (inr tt, set_voltages_out l s)
           | inl e => (inl e, s)
           end.

Definition assign_currents_out (pin_number : nat) (v : Q) : M uio unit :=
  fun s => match setitem (_currents_out s) pin_number v with
           | inr l => (inr tt, set_currents_out l s)
           | inl e => (inl e, s)
           end.

Definition assign_pwm_out (pin_number : nat) (v : Q * Q * Q) : M uio unit :=
  fun s => match setitem (_pwm_out s) pin_number v with
           | inr l => (inr tt, set_pwm_out l s)
           | inl e => (inl e, s)
           end.

(** An assignment to the [state] of the [Pin] object [pins[pin]]. *)
Definition modify_pin (pin_number : nat) (f : pin_state -> pin_state) : M uio unit :=
  modify (fun s => set_pins (alter f pin_number (pins s)) s).

Definition _send_op_mode_req : M uio unit :=
  s ← get;
  try_except (send_can_message send_ok OP_MODE_REQ
                (OpModeData (op_mode_data _OP_MODE_SIGNALS (_op_modes s)))).

Definition _send_voltage_out_req : M uio unit :=
  s ← get;
  let data := map (fun i => nth (i - 1) (_voltages_out s) 0%Q) (seq 1 8) in
  try_except (send_can_message send_ok VOLTAGE_OUT_VAL_REQ (ValueData data) ;;
              modify (fun s => set_voltages_out_last (_voltages_out s) s)).

Definition _send_current_out_req : M uio unit :=
  s ← get;
  let data := map (fun i => nth (i - 1) (_currents_out s) 0%Q) (seq 1 8) in
  try_except (send_can_message send_ok CUR_LOOP_OUT_VAL_REQ (ValueData data) ;;
              modify (fun s => set_currents_out_last (_currents_out s) s)).

Definition _send_pwm_out_req : M uio unit :=
  s ← get;
  let data := map (fun i => nth (i - 1) (_pwm_out s) (0, 0, 0)%Q) (seq 1 8) in
  try_except (send_can_message send_ok PWM_OUT_VAL_REQ (PwmData data) ;;
              modify (fun s => set_pwm_out_last (_pwm_out s) s)).

Definition switch_data (w : switches) : list Z :=
  flat_map (fun k => map (fun i => if nth (i - 1) (switch_get k w) false then 1 else 0)
                         (seq 1 8)) switch_prefixes.

Definition _send_switch_output_req : M uio unit :=
  s ← get;
  try_except (send_can_message send_ok SWITCH_OUTPUT_REQ
                (SwitchData (switch_data (_switch_states s)))).

Definition _send_all_parameters : M uio unit :=
  _send_op_mode_req ;; _send_voltage_out_req ;; _send_current_out_req ;;
  _send_pwm_out_req ;; _send_switch_output_req.

End Device.

(** [Pin]: the methods take the pin's [pin_number] and act on the
    parent device. *)
Module Pin.
Section Pin.
Variable send_ok : message -> bool.
Variable pin_number : nat.

Definition disable_feature (feature : Feature.t) : M uio unit :=
  _set_op_mode pin_number feature FeatureState.DISABLED ;;
  match feature_to_switch feature with
  | Some k => assign_switch k pin_number false
  | None => mret tt
  end.

Definition features_to_disable : list Feature.t :=
  [Feature.GET_VOLTAGE; Feature.SET_VOLTAGE; Feature.GET_CURRENT;
   Feature.SET_CURRENT; Feature.GET_PWM; Feature.SET_PWM].

(** Each [disable_feature] runs in its own [try]/[except]. *)
Definition disable_all_features : M uio unit :=
  foldr (fun feature rest => try_except (disable_feature feature) ;; rest)
    (mret tt) features_to_disable.

Definition in_range (lo hi x : Q) : bool := Qle_bool lo x && Qle_bool x hi.

Definition set_voltage (voltage : Q) : M uio unit :=
  if negb (in_range 0 24 voltage) then raise ValueError else
  disable_all_features ;;
  _set_op_mode pin_number Feature.SET_VOLTAGE FeatureState.OPERATE ;;
  _set_op_mode pin_number Feature.GET_VOLTAGE FeatureState.OPERATE ;;
  assign_switch vlt_o pin_number true ;;
  assign_voltages_out pin_number voltage ;;
  modify_pin pin_number (fun ps => mk_pin_state voltage (current_set ps)
    (pwm_frequency_set ps) (pwm_duty_cycle_set ps) (pwm_voltage_set ps) (relay_state ps)) ;;
  s ← get;
  if negb (list_Qeqb (_voltages_out s) (_voltages_out_last s))
  then _send_voltage_out_req send_ok else mret tt.

Definition set_tx_current (current : Q) : M uio unit :=
  if negb (in_range 0 20 current) then raise ValueError else
  disable_all_features ;;
  _set_op_mode pin_number Feature.SET_CURRENT FeatureState.OPERATE ;;
  assign_switch cur_o pin_number true ;;
  assign_currents_out pin_number current ;;
  modify_pin pin_number (fun ps => mk_pin_state (voltage_set ps) 0
    (pwm_frequency_set ps) (pwm_duty_cycle_set ps) (pwm_voltage_set ps) (relay_state ps)) ;;
  s ← get;
  if negb (list_Qeqb (_currents_out s) (_currents_out_last s))
  then _send_current_out_req send_ok else mret tt.

(** [get_tx_current] returns [self.state.current.set_value]. *)
Definition get_tx_current (s : uio) : Q := current_set (nth pin_number (pins s) init_pin_state).

Definition set_pwm (frequency duty_cycle voltage : Q) : M uio unit :=
  if negb (in_range 0 5000 frequency) then raise ValueError else
  if negb (in_range 0 100 duty_cycle) then raise ValueError else
  let voltage := 5%Q in
  disable_all_features ;;
  _set_op_mode pin_number Feature.SET_PWM FeatureState.OPERATE ;;
  _set_op_mode pin_number Feature.GET_PWM FeatureState.OPERATE ;;
  assign_switch pwm pin_number true ;;
  assign_switch icu pin_number true ;;
  assign_pwm_out pin_number (frequency, duty_cycle, voltage) ;;
  modify_pin pin_number (fun ps => mk_pin_state (voltage_set ps) (current_set ps)
    frequency duty_cycle voltage (relay_state ps)) ;;
  s ← get;
  if negb (list_triple_eqb (_pwm_out s) (_pwm_out_last s))
  then _send_pwm_out_req send_ok else mret tt.

Definition set_relay (state : RelayState.t) : M uio unit :=
  modify_pin pin_number (fun ps => mk_pin_state (voltage_set ps) (current_set ps)
    (pwm_frequency_set ps) (pwm_duty_cycle_set ps) (pwm_voltage_set ps) state) ;;
  match state with
  | RelayState.CLOSED => assign_switch vlt_o pin_number true
  | _ => assign_switch vlt_o pin_number false
  end ;;
  _send_switch_output_req send_ok.

End Pin.
End Pin.

(** The two periodic callbacks the UIO registers. *)
Inductive uio_callback := request_module_info_cb | send_all_parameters_cb.

Section Periodic.
Variable send_ok : message -> bool.

Definition run_uio_callback (c : uio_callback) : M uio unit :=
  match c with
  | request_module_info_cb => request_module_info send_ok
  | send_all_parameters_cb => _send_all_parameters send_ok
  end.

(** [_setup_periodic_tasks], called by [start] at time [now] with a
    fresh [TaskMonitor]: one immediate MODULE_INFO request, then the two
    tasks, 4.0 s and 0.1 s. *)
Definition _setup_periodic_tasks (now : float) (ts : TaskMonitor.tasks) (s : uio)
    : TaskMonitor.tasks * uio :=
  let s := snd (request_module_info send_ok s) in
  let ts := TaskMonitor.add_task_sec "module_info" request_module_info_cb 4.0 now ts in
  let ts := TaskMonitor.add_task_sec "all_parameters" send_all_parameters_cb 0.1 now ts in
  (ts, s).

End Periodic.

End UIO.

(* ================================================================= *)
(** ** Electronic load ([devices/device_eload.py]) *)

Module ELoad.
Import CanProtocol Device.

(** The fields of [ELoadChannelState] that the setters write. *)
Record channel_state := mk_channel_state {
  ch_enabled : bool; ch_voltage : Q; ch_current_set : Q }.

Record eload := mk_eload {
  _op_modes : gmap nat (gmap Z FeatureState.t);
  _voltages_out : list Q;
  _currents_out : list Q;
  _voltages_out_last : list Q;
  _currents_out_last : list Q;
  _relay_states : list bool;
  channels : list channel_state;
  eload_sent : list message }.

Definition set_op_modes x s := mk_eload x (_voltages_out s) (_currents_out s)
  (_voltages_out_last s) (_currents_out_last s) (_relay_states s) (channels s) (eload_sent s).
Definition set_voltages_out x s := mk_eload (_op_modes s) x (_currents_out s)
  (_voltages_out_last s) (_currents_out_last s) (_relay_states s) (channels s) (eload_sent s).
Definition set_currents_out x s := mk_eload (_op_modes s) (_voltages_out s) x
  (_voltages_out_last s) (_currents_out_last s) (_relay_states s) (channels s) (eload_sent s).
Definition set_voltages_out_last x s := mk_eload (_op_modes s) (_voltages_out s)
  (_currents_out s) x (_currents_out_last s) (_relay_states s) (channels s) (eload_sent s).
Definition set_currents_out_last x s := mk_eload (_op_modes s) (_voltages_out s)
  (_currents_out s) (_voltages_out_last s) x (_relay_states s) (channels s) (eload_sent s).
Definition set_relay_states x s := mk_eload (_op_modes s) (_voltages_out s)
  (_currents_out s) (_voltages_out_last s) (_currents_out_last s) x (channels s) (eload_sent s).
Definition set_channels x s := mk_eload (_op_modes s) (_voltages_out s)
  (_currents_out s) (_voltages_out_last s) (_currents_out_last s) (_relay_states s) x
  (eload_sent s).

#[global] Instance eload_device : DeviceSDR eload := {
  sent := eload_sent;
  set_sent := fun x s => mk_eload (_op_modes s) (_voltages_out s) (_currents_out s)
    (_voltages_out_last s) (_currents_out_last s) (_relay_states s) (channels s) x }.

Definition init_channel_state : channel_state := mk_channel_state false 0 0.

(** [DeviceELoad.__init__]. *)
Definition init_eload : eload :=
  mk_eload (list_to_map (map (fun i => (i, ∅)) (seq 0 8)))
    (repeat 0%Q 8) (repeat 0%Q 8) (repeat 0%Q 8) (repeat 0%Q 8)
    (repeat false 4) (repeat init_channel_state 8) [].

(** [channel()]: the index check; [None] is the [ValueError]. *)
Definition channel (channel_id : Z) : option nat :=
  if (0 <=? channel_id) && (channel_id <=? 7) then Some (Z.to_nat channel_id) else None.

(** The OP_MODE signals in the order [_send_op_mode_req] creates them. *)
Definition op_mode_signals : list (string * Z) :=
  flat_map (fun prefix => map (fun i => (prefix, i)) [1; 2; 3; 4; 5; 6; 7; 8])
    ["pwm"; "icu"; "vlt_i"; "vlt_o"; "cur_i"; "cur_o"]%string.

Section Device.
Variable send_ok : message -> bool.

Definition _set_op_mode (channel_id : nat) (feature : Feature.t) (state : FeatureState.t)
    : M eload unit :=
  modify (fun s => set_op_modes
    (<[channel_id := <[Feature.value feature := state]>
                       (default ∅ (_op_modes s !! channel_id))]> (_op_modes s)) s).

Definition assign_voltages_out (channel_id : nat) (v : Q) : M eload unit :=
  fun s => match setitem (_voltages_out s) channel_id v with
           | inr l => (inr tt, set_voltages_out l s)
           | inl e => (inl e, s)
           end.

Definition assign_currents_out (channel_id : nat) (v : Q) : M eload unit :=
  fun s => match setitem (_currents_out s) channel_id v with
           | inr l => (inr tt, set_currents_out l s)
           | inl e => (inl e, s)
           end.

Definition assign_relay_states (relay_id : nat) (b : bool) : M eload unit :=
  fun s => match setitem (_relay_states s) relay_id b with
           | inr l => (inr tt, set_relay_states l s)
           | inl e => (inl e, s)
           end.

(** An assignment to the [state] of the channel object [channels[c]]. *)
Definition modify_channel (channel_id : nat) (f : channel_state -> channel_state)
    : M eload unit :=
  modify (fun s => set_channels (alter f channel_id (channels s)) s).

Definition _send_op_mode_req : M eload unit :=
  s ← get;
  try_except (send_can_message send_ok OP_MODE_REQ
                (OpModeData (op_mode_data op_mode_signals (_op_modes s)))).

Definition _send_voltage_out_req : M eload unit :=
  s ← get;
  let data := map (fun i => nth (i - 1) (_voltages_out s) 0%Q) (seq 1 8) in
  try_except (send_can_message send_ok VOLTAGE_ELM_OUT_VAL_REQ (ValueData data) ;;
              modify (fun s => set_voltages_out_last (_voltages_out s) s)).

Definition _send_current_out_req : M eload unit :=
  s ← get;
  let data := map (fun i => nth (i - 1) (_currents_out s) 0%Q) (seq 1 8) in
  try_except (send_can_message send_ok CUR_ELM_OUT_VAL_REQ (ValueData data) ;;
              modify (fun s => set_currents_out_last (_currents_out s) s)).

Definition _send_switch_relay_req : M eload unit :=
  s ← get;
  let data := map (fun i => if nth (i - 1) (_relay_states s) false then 1 else 0) (seq 1 4) in
  try_except (send_can_message send_ok SWITCH_ELM_DOUT_REQ (SwitchData data)).

Definition _send_all_parameters : M eload unit :=
  _send_op_mode_req ;; _send_voltage_out_req ;; _send_current_out_req.

Definition set_relay (relay_id : Z) (closed : bool) : M eload unit :=
  if negb ((0 <=? relay_id) && (relay_id <=? 3)) then raise ValueError else
  assign_relay_states (Z.to_nat relay_id) closed ;;
  _send_switch_relay_req.

(** [get_relay]; [None] is the [ValueError]. *)
Definition get_relay (relay_id : Z) (s : eload) : option bool :=
  if negb ((0 <=? relay_id) && (relay_id <=? 3)) then None
  else Some (nth (Z.to_nat relay_id) (_relay_states s) false).

End Device.

(** [ELoadChannel]: the methods take the [channel_id]. *)
Module ELoadChannel.
Section Channel.
Variable send_ok : message -> bool.
Variable channel_id : nat.

Definition set_current (current : Q) : M eload unit :=
  if negb (Qle_bool 0 current && Qle_bool current 10) then raise ValueError else
  _set_op_mode channel_id Feature.SET_CURRENT FeatureState.OPERATE ;;
  _set_op_mode channel_id Feature.GET_CURRENT FeatureState.OPERATE ;;
  _set_op_mode channel_id Feature.SET_VOLTAGE FeatureState.DISABLED ;;
  _set_op_mode channel_id Feature.GET_VOLTAGE FeatureState.OPERATE ;;
  assign_currents_out channel_id current ;;
  modify_channel channel_id (fun cs =>
    mk_channel_state (negb (Qle_bool current 0)) (ch_voltage cs) current) ;;
  assign_voltages_out channel_id 0 ;;
  s ← get;
  if negb (list_Qeqb (_currents_out s) (_currents_out_last s))
  then _send_current_out_req send_ok else mret tt.

Definition set_voltage (voltage : Q) : M eload unit :=
  if negb (Qle_bool 0 voltage && Qle_bool voltage 24) then raise ValueError else
  _set_op_mode channel_id Feature.SET_VOLTAGE FeatureState.OPERATE ;;
  _set_op_mode channel_id Feature.GET_VOLTAGE FeatureState.OPERATE ;;
  _set_op_mode channel_id Feature.SET_CURRENT FeatureState.DISABLED ;;
  _set_op_mode channel_id Feature.GET_CURRENT FeatureState.DISABLED ;;
  assign_voltages_out channel_id voltage ;;
  modify_channel channel_id (fun cs =>
    mk_channel_state (ch_enabled cs) voltage (ch_current_set cs)) ;;
  assign_currents_out channel_id 0 ;;
  modify_channel channel_id (fun cs =>
    mk_channel_state (ch_enabled cs) (ch_voltage cs) 0) ;;
  s ← get;
  if negb (list_Qeqb (_voltages_out s) (_voltages_out_last s))
  then _send_voltage_out_req send_ok else mret tt.

Definition disable : M eload unit := set_current 0.

End Channel.
End ELoadChannel.

Inductive eload_callback := request_module_info_cb | send_all_parameters_cb.

Section Periodic.
Variable send_ok : message -> bool.

Definition run_eload_callback (c : eload_callback) : M eload unit :=
  match c with
  | request_module_info_cb => request_module_info send_ok
  | send_all_parameters_cb => _send_all_parameters send_ok
  end.

(** [_setup_periodic_tasks]: one immediate MODULE_INFO request, then the
    two tasks, 9.0 s and 0.1 s (the comment above the second says 3 s). *)
Definition _setup_periodic_tasks (now : float) (ts : TaskMonitor.tasks) (s : eload)
    : TaskMonitor.tasks * eload :=
  let s := snd (request_module_info send_ok s) in
  let ts := TaskMonitor.add_task_sec "module_info" request_module_info_cb 9.0 now ts in
  let ts := TaskMonitor.add_task_sec "all_parameters" send_all_parameters_cb 0.1 now ts in
  (ts, s).

End Periodic.

(** The channel operations a caller can issue on an ELoad. *)
Inductive op :=
  | SetCurrent (c : nat) (i : Q)
  | SetVoltage (c : nat) (v : Q)
  | Disable (c : nat)
  | SetRelay (r : Z) (closed : bool)
  | Periodic.

Definition run_op (send_ok : message -> bool) (o : op) : M eload unit :=
  match o with
  | SetCurrent c i => ELoadChannel.set_current send_ok c i
  | SetVoltage c v => ELoadChannel.set_voltage send_ok c v
  | Disable c => ELoadChannel.disable send_ok c
  | SetRelay r b => set_relay send_ok r b
  | Periodic => _send_all_parameters send_ok
  end.

(** A sequence of operations; an exception propagates to the caller but
    the next call still runs on the state it left. *)
Fixpoint run_ops (send_ok : message -> bool) (os : list op) (s : eload) : eload :=
  match os with
  | [] => s
  | o :: rest => run_ops send_ok rest (snd (run_op send_ok o s))
  end.

End ELoad.

(* ================================================================= *)
(** ** The facade ([sdk.py]) *)

Module SDK.

(** [DeviceType] of the connected object. *)
Inductive DeviceType := UIO_T | ELOAD_T | IFMUX_T.

(** A device object: its identity (the allocation it came from), its class,
    the MAC it was created with, and whether it runs. *)
Record device := mk_device {
  oid : nat; dtype : DeviceType; dev_mac : string; running : bool }.

Record sdrig := mk_sdrig {
  _connected_devices : gmap string device;
  next_oid : nat }.

(** [str.upper()] on ASCII text (a MAC address). *)
Definition ascii_upper (c : Ascii.ascii) : Ascii.ascii :=
  let n := Ascii.nat_of_ascii c in
  if (Nat.leb 97 n && Nat.leb n 122)%bool then Ascii.ascii_of_nat (n - 32) else c.

Fixpoint upper (s : string) : string :=
  match s with
  | EmptyString => EmptyString
  | String c rest => String (ascii_upper c) (upper rest)
  end.

Definition init_sdrig : sdrig := mk_sdrig ∅ 0.

(** The common body of [connect_uio], [connect_eload] and [connect_ifmux]:
    look the upper-cased MAC up, else create, store and optionally start a
    device of class [t]. *)
Definition connect (t : DeviceType) (mac_address : string) (auto_start : bool) (s : sdrig)
    : device * sdrig :=
  let mac := upper mac_address in
  match _connected_devices s !! mac with
  | Some d => (d, s)
  | None =>
      let d := mk_device (next_oid s) t mac auto_start in
      (d, mk_sdrig (<[mac := d]> (_connected_devices s)) (S (next_oid s)))
  end.

Definition connect_uio (mac_address : string) (auto_start : bool) (s : sdrig) :=
  connect UIO_T mac_address auto_start s.
Definition connect_eload (mac_address : string) (auto_start : bool) (s : sdrig) :=
  connect ELOAD_T mac_address auto_start s.
Definition connect_ifmux (mac_address : string) (auto_start : bool) (s : sdrig) :=
  connect IFMUX_T mac_address auto_start s.

(** [disconnect]: stop the device (the [hasattr] test always holds) and
    drop it; an unknown MAC only logs. Returns the stopped object too. *)
Definition disconnect (mac_address : string) (s : sdrig) : option device * sdrig :=
  let mac := upper mac_address in
  match _connected_devices s !! mac with
  | None => (None, s)
  | Some d =>
      (Some (mk_device (oid d) (dtype d) (dev_mac d) false),
       mk_sdrig (delete mac (_connected_devices s)) (next_oid s))
  end.

End SDK.

(* ================================================================= *)
(** ** Bit-level reasoning support *)

Lemma testbit_above (a k n : Z) :
  0 <= a < 2 ^ k -> 0 <= k <= n -> Z.testbit a n = false.
Proof.
  intros Ha Hk. apply Z.testbit_false; [lia|].
  rewrite Z.div_small; [reflexivity|].
  split; [lia|]. apply Z.lt_le_trans with (2 ^ k); [lia|].
  apply Z.pow_le_mono_r; lia.
Qed.

(** Push [Z.testbit] through the bitwise operators. *)
Ltac zbits :=
  repeat first
    [ rewrite Z.lor_spec | rewrite Z.land_spec
    | match goal with
      | |- context [Z.testbit (Z.shiftr ?a ?k) ?m] =>
          first [ rewrite (Z.shiftr_spec a k m) by lia
                | rewrite (Z.testbit_neg_r (Z.shiftr a k) m) by lia ]
      | |- context [Z.testbit (Z.shiftl ?a ?k) ?m] =>
          first [ rewrite (Z.shiftl_spec a k m) by lia
                | rewrite (Z.testbit_neg_r (Z.shiftl a k) m) by lia ]
      end ].

(** Abstract the bits of a variable [x] known to fit in [w] bits. *)
Ltac hide_bits x w :=
  let Hhi := fresh "Hhi" in let Hneg := fresh "Hneg" in let t := fresh "t" in
  assert (Hhi : forall k, w <= k -> Z.testbit x k = false)
    by (intros; apply testbit_above with w; lia);
  assert (Hneg : forall k, k < 0 -> Z.testbit x k = false)
    by (intros; apply Z.testbit_neg_r; lia);
  revert Hhi Hneg; generalize (Z.testbit x) as t; intros t Hhi Hneg.

(** Same, for a variable with no upper bound. *)
Ltac hide_bits_unbounded x :=
  let Hneg := fresh "Hneg" in let t := fresh "t" in
  assert (Hneg : forall k, k < 0 -> Z.testbit x k = false)
    by (intros; apply Z.testbit_neg_r; lia);
  revert Hneg; generalize (Z.testbit x) as t; intros t Hneg.

Ltac is_zlit c := lazymatch c with Z.pos _ => idtac | Z0 => idtac | Z.neg _ => idtac end.

(** Remove bits that are known to be zero, and evaluate constant bits. *)
Ltac kill_bits :=
  repeat match goal with
  | H : forall k, 0 <= k < _ -> ?t k = Z.testbit _ k |- context [?t ?k] =>
      rewrite (H k) by lia
  | |- context [Z.testbit ?c ?k] =>
      is_zlit c; is_zlit k;
      let b := eval vm_compute in (Z.testbit c k) in change (Z.testbit c k) with b
  | H : forall k, _ <= k -> ?t k = false |- context [?t ?k] => rewrite (H k) by lia
  | H : forall k, k < 0 -> ?t k = false |- context [?t ?k] => rewrite (H k) by lia
  | |- context [Z.testbit ?c ?k] =>
      is_zlit c;
      rewrite (testbit_above c 32 k) by first [lia | split; [lia | reflexivity]]
  end.

(** Decide a bit-level identity: every bit below 32 one by one, every
    bit above 32 by the zero bits. *)
Ltac enum_bits n k :=
  lazymatch k with
  | 32 => exfalso; lia
  | _ =>
      let k' := eval vm_compute in (k + 1) in
      destruct (Z.eq_dec n k) as [-> | ?];
      [ vm_compute; kill_bits; btauto | enum_bits n k' ]
  end.

(** Variant that fixes the bit index before pushing [Z.testbit] inward,
    for expressions whose shifts need a nonnegative index; [hide] abstracts
    the variables' bits. *)
Ltac enum_bits_with n k hide :=
  lazymatch k with
  | 32 => exfalso; lia
  | _ =>
      let k' := eval vm_compute in (k + 1) in
      destruct (Z.eq_dec n k) as [-> | ?];
      [ zbits; hide; vm_compute; kill_bits; btauto | enum_bits_with n k' hide ]
  end.

Ltac bits_solve n hide :=
  destruct (Z_lt_le_dec n 32) as [? | ?];
  [ enum_bits_with n 0 hide | zbits; hide; kill_bits; btauto ].

Ltac bits_finish n :=
  destruct (Z_lt_le_dec n 32) as [? | ?];
  [ enum_bits n 0 | kill_bits; btauto ].

Module CanProtocolFacts.
Import CanProtocol.

Lemma extract_priority_build (pgn sa da prio : Z) :
  0 <= prio <= 7 -> extract_priority (build_j1939_id pgn sa da prio) = prio.
Proof.
  intros Hp. unfold extract_priority, build_j1939_id.
  destruct (_ <? 0xF0); apply Z.bits_inj'; intros n Hn; zbits;
  hide_bits prio 3; hide_bits_unbounded pgn; hide_bits_unbounded sa;
  hide_bits_unbounded da; bits_finish n.
Qed.

Lemma extract_source_address_build (pgn sa da prio : Z) :
  0 <= sa <= 255 -> extract_source_address (build_j1939_id pgn sa da prio) = sa.
Proof.
  intros Hs. unfold extract_source_address, build_j1939_id.
  destruct (_ <? 0xF0); apply Z.bits_inj'; intros n Hn; zbits;
  hide_bits sa 8; hide_bits_unbounded pgn; hide_bits_unbounded prio;
  hide_bits_unbounded da; bits_finish n.
Qed.

(** The PF byte of a built identifier is the PF byte of the PGN. *)
Lemma pf_build (pgn sa da prio : Z) :
  Z.land (Z.shiftr (build_j1939_id pgn sa da prio) 16) 0xFF
  = Z.land (Z.shiftr pgn 8) 0xFF.
Proof.
  unfold build_j1939_id.
  destruct (_ <? 0xF0); apply Z.bits_inj'; intros n Hn; zbits;
  hide_bits_unbounded sa; hide_bits_unbounded pgn; hide_bits_unbounded prio;
  hide_bits_unbounded da; bits_finish n.
Qed.

Lemma low_byte_bits (x c : Z) :
  Z.land x 0xFF = c -> forall k, 0 <= k < 8 -> Z.testbit x k = Z.testbit c k.
Proof.
  intros H k Hk. rewrite <- H, Z.land_spec.
  change 0xFF with (Z.ones 8). rewrite Z.ones_spec_low by lia. btauto.
Qed.

Lemma extract_pgn_build (pgn sa : Z) :
  0 <= pgn < 2 ^ 18 -> Z.land pgn 0xFF = 0xFE ->
  extract_pgn (build_j1939_id pgn sa 0xFE 3) = pgn.
Proof.
  intros Hr Hlo. pose proof (low_byte_bits _ _ Hlo) as Hl.
  unfold extract_pgn, is_pdu1_format. rewrite pf_build.
  unfold build_j1939_id.
  destruct (_ <? 0xF0); apply Z.bits_inj'; intros n Hn; zbits;
  revert Hl; hide_bits pgn 18; intros Hl; hide_bits_unbounded sa;
  bits_finish n.
Qed.

(** A normalized extended identifier is still extended. *)
Lemma normalize_extended (x : Z) :
  0x7FF < x -> 0x7FF < normalize_can_id_for_dbc x.
Proof.
  intros Hx. unfold normalize_can_id_for_dbc, is_j1939.
  replace (0x7FF <? x) with true by (symmetry; apply Z.ltb_lt; lia). cbn.
  set (y := Z.lor _ 0x80000000).
  assert (Hy : 0 <= y)
    by (apply Z.lor_nonneg; split; [|lia];
        destruct (is_pdu1_format x); apply Z.lor_nonneg;
        split; try lia; apply Z.land_nonneg; lia).
  assert (H31 : Z.testbit y 31 = true)
    by (unfold y; rewrite Z.lor_spec; apply orb_true_r).
  destruct (Z_lt_le_dec 0x7FF y) as [|Hle]; [assumption|].
  rewrite (testbit_above y 11 31) in H31; [discriminate| |lia].
  split; [lia|]. apply Z.le_lt_trans with 0x7FF; [lia| reflexivity].
Qed.

Lemma pf_normalize (x : Z) :
  0x7FF < x ->
  Z.land (Z.shiftr (normalize_can_id_for_dbc x) 16) 0xFF
  = Z.land (Z.shiftr x 16) 0xFF.
Proof.
  intros Hx. unfold normalize_can_id_for_dbc, is_j1939.
  replace (0x7FF <? x) with true by (symmetry; apply Z.ltb_lt; lia). cbn.
  destruct (is_pdu1_format x); apply Z.bits_inj'; intros n Hn; zbits;
  hide_bits_unbounded x; bits_finish n.
Qed.

Lemma normalize_standard (x : Z) :
  x <= 0x7FF -> normalize_can_id_for_dbc x = x.
Proof.
  intros Hx. unfold normalize_can_id_for_dbc, is_j1939.
  replace (0x7FF <? x) with false by (symmetry; apply Z.ltb_ge; lia).
  reflexivity.
Qed.

Lemma normalize_extended_eq (x : Z) :
  0x7FF < x ->
  normalize_can_id_for_dbc x =
  Z.lor (if is_pdu1_format x
         then Z.lor (Z.land x 0xFFFF0000) 0xFEFE
         else Z.lor (Z.land x 0xFFFFFF00) 0xFE) 0x80000000.
Proof.
  intros Hx. unfold normalize_can_id_for_dbc, is_j1939.
  replace (0x7FF <? x) with true by (symmetry; apply Z.ltb_lt; lia).
  reflexivity.
Qed.

Lemma normalize_pdu1 (x : Z) :
  0x7FF < x -> is_pdu1_format (normalize_can_id_for_dbc x) = is_pdu1_format x.
Proof.
  intros Hx. unfold is_pdu1_format at 1. rewrite pf_normalize by exact Hx.
  reflexivity.
Qed.

End CanProtocolFacts.


Module AvtpAcfFacts.
Import AvtpAcf.

(** Enumerate an integer over a finite range. *)
Ltac enum_range q k hi tac :=
  first
  [ assert (q < k) by lia; exfalso; lia
  | destruct (Z.eq_dec q k) as [-> | ?];
    [ tac
    | let k' := eval vm_compute in (k + 1) in enum_range q k' hi tac ] ].

Lemma header_ok (q : Z) :
  2 <= q <= 18 ->
  pack_H (Z.lor (Z.shiftl (Z.land 2 0x7F) 9) (Z.land q 0x1FF)) = Some [4; q] /\
  Z.land (Z.shiftr (Z.lor (Z.shiftl 4 8) q) 9) 0x7F = 2 /\
  Z.land (Z.lor (Z.shiftl 4 8) q) 0x1FF = q.
Proof.
  intros Hq. enum_range q 2 18 ltac:(vm_compute; repeat split).
Qed.

Lemma pack_B_byte (x : Z) : 0 <= x < 2 ^ 8 -> pack_B x = Some [x].
Proof.
  intros Hx. unfold pack_B.
  replace ((0 <=? x) && (x <? 2 ^ 8)) with true by lia. reflexivity.
Qed.

Lemma pack_I_word (x : Z) : 0 <= x < 2 ^ 32 ->
  pack_I x = Some [Z.land (Z.shiftr x 24) 0xFF; Z.land (Z.shiftr x 16) 0xFF;
                   Z.land (Z.shiftr x 8) 0xFF; Z.land x 0xFF].
Proof.
  intros Hx. unfold pack_I.
  replace ((0 <=? x) && (x <? 2 ^ 32)) with true by lia. reflexivity.
Qed.

(** The four big-endian bytes of a 29-bit identifier give it back. *)
Lemma can_id_bytes (x : Z) : 0 <= x < 2 ^ 29 ->
  Z.lor (Z.lor (Z.lor (Z.shiftl (Z.land (Z.land (Z.shiftr x 24) 0xFF) 0x1F) 24)
                      (Z.shiftl (Z.land (Z.shiftr x 16) 0xFF) 16))
               (Z.shiftl (Z.land (Z.shiftr x 8) 0xFF) 8))
        (Z.land x 0xFF) = x.
Proof.
  intros Hx. apply Z.bits_inj'; intros n Hn; bits_solve n ltac:(hide_bits x 29).
Qed.

Lemma bus_id_mask (b : Z) : 0 <= b <= 31 -> Z.land b 0x1F = b.
Proof.
  intros Hb. change 0x1F with (Z.ones 5). rewrite Z.land_ones by lia.
  apply Z.mod_small. change (2 ^ 5) with 32. lia.
Qed.

Definition pad_len (n : nat) : nat := (4 - n mod 4) mod 4.

Ltac mod4_facts n :=
  pose proof (Nat.div_mod_eq n 4); pose proof (Nat.mod_upper_bound n 4 ltac:(lia)).

Lemma pad_len_step (n : nat) :
  (n mod 4 <> 0)%nat -> pad_len (S n) = (pad_len n - 1)%nat /\ (1 <= pad_len n)%nat.
Proof.
  unfold pad_len. intros H. mod4_facts n. mod4_facts (S n).
  remember (n mod 4)%nat as r. remember (S n mod 4)%nat as r'.
  remember (n / 4)%nat as q. remember (S n / 4)%nat as q'.
  destruct r as [|[|[|[|]]]]; try lia;
  [ assert (E : r' = 2%nat) by lia | assert (E : r' = 3%nat) by lia
  | assert (E : r' = 0%nat) by lia ];
  rewrite E; cbn; lia.
Qed.

Lemma pad_len_zero (n : nat) : (n mod 4 = 0)%nat -> pad_len n = 0%nat.
Proof. unfold pad_len. intros ->. reflexivity. Qed.

Lemma pad_len_bound (n : nat) : (pad_len n < 4)%nat /\ ((n + pad_len n) mod 4 = 0)%nat.
Proof.
  unfold pad_len. mod4_facts n.
  remember (n mod 4)%nat as r. remember (n / 4)%nat as q.
  destruct r as [|[|[|[|]]]]; try lia.
  - change ((4 - 0) mod 4)%nat with 0%nat. split; [lia|].
    replace (n + 0)%nat with (q * 4)%nat by lia. apply Nat.Div0.mod_mul.
  - change ((4 - 1) mod 4)%nat with 3%nat. split; [lia|].
    replace (n + 3)%nat with ((q + 1) * 4)%nat by lia. apply Nat.Div0.mod_mul.
  - change ((4 - 2) mod 4)%nat with 2%nat. split; [lia|].
    replace (n + 2)%nat with ((q + 1) * 4)%nat by lia. apply Nat.Div0.mod_mul.
  - change ((4 - 3) mod 4)%nat with 1%nat. split; [lia|].
    replace (n + 1)%nat with ((q + 1) * 4)%nat by lia. apply Nat.Div0.mod_mul.
Qed.

Lemma pad_loop_gen (f : nat) (b : list Z) :
  (pad_len (length b) <= f)%nat ->
  pad_loop f b = b ++ replicate (pad_len (length b)) 0.
Proof.
  revert b; induction f as [|f IH]; intros b Hf; cbn [pad_loop].
  - assert (pad_len (length b) = 0%nat) as -> by lia. rewrite app_nil_r. reflexivity.
  - destruct (Nat.eqb_spec (length b mod 4) 0) as [E|E].
    + rewrite (pad_len_zero _ E), app_nil_r. reflexivity.
    + destruct (pad_len_step _ E) as [E1 E2].
      rewrite IH
        by (rewrite length_app; change (length [0]) with 1%nat;
            rewrite Nat.add_1_r, E1; lia).
      rewrite length_app; change (length [0]) with 1%nat.
      rewrite Nat.add_1_r, E1, <- app_assoc. f_equal.
      destruct (pad_len (length b)) as [|p]; [lia|].
      cbn. rewrite Nat.sub_0_r. reflexivity.
Qed.

(** [pad_loop 3] appends exactly the zero bytes that reach a multiple of 4. *)
Lemma pad_loop_spec (b : list Z) :
  pad_loop 3 b = b ++ replicate (pad_len (length b)) 0.
Proof.
  apply pad_loop_gen. pose proof (pad_len_bound (length b)). lia.
Qed.

(** Padding to the quadlet boundary reaches [4 * ceil (m / 4)]. *)
Lemma pad_len_ceil (m : nat) : (m + pad_len m = 4 * ((m + 3) / 4))%nat.
Proof.
  unfold pad_len. mod4_facts m. mod4_facts (m + 3)%nat.
  remember (m mod 4)%nat as r. remember ((m + 3) mod 4)%nat as r'.
  remember (m / 4)%nat as q. remember ((m + 3) / 4)%nat as q'.
  destruct r as [|[|[|[|]]]]; try lia.
  - change ((4 - 0) mod 4)%nat with 0%nat. lia.
  - change ((4 - 1) mod 4)%nat with 3%nat. lia.
  - change ((4 - 2) mod 4)%nat with 2%nat. lia.
  - change ((4 - 3) mod 4)%nat with 1%nat. lia.
Qed.

Lemma pad_len_zero_iff (m : nat) : (pad_len m = 0 <-> m mod 4 = 0)%nat.
Proof.
  split; [|apply pad_len_zero].
  unfold pad_len. mod4_facts m. remember (m mod 4)%nat as r.
  destruct r as [|[|[|[|]]]]; try lia; cbn; lia.
Qed.

(** The flags byte of [build_acf_can_brief] carries ts/eff/brs/fdf at
    bits 5/3/2/1. *)
Lemma flags_byte (eff fdf brs ts_valid : bool) (fl : Z) :
  fl = Z.lor (Z.lor (Z.lor (Z.lor 0x00 (if ts_valid then 0x20 else 0))
                           (if eff then 0x08 else 0))
                    (if brs then 0x04 else 0))
             (if fdf then 0x02 else 0) ->
  0 <= fl < 2 ^ 8 /\ Z.testbit fl 5 = ts_valid /\ Z.testbit fl 3 = eff /\
  Z.testbit fl 2 = brs /\ Z.testbit fl 1 = fdf.
Proof.
  intros ->. destruct eff, fdf, brs, ts_valid; vm_compute;
    (split; [split; congruence|]); repeat split.
Qed.

End AvtpAcfFacts.

(** * UIO pin setters: run lemmas *)

Module UioFacts.
Import CanProtocol Device UIO.

Lemma bind_inr {S A B} (m : M S A) (f : A -> M S B) s s1 a :
  m s = (inr a, s1) -> (m ≫= f) s = f a s1.
Proof. intros H. unfold mbind, M_bind. rewrite H. reflexivity. Qed.

Lemma try_except_inr {S} (m : M S unit) s :
  try_except m s = (inr tt, snd (m s)).
Proof. unfold try_except. destruct (m s) as [[e|[]] s']; reflexivity. Qed.

Definition wf (s : uio) : Prop :=
  length (_voltages_out s) = 8%nat /\ length (_currents_out s) = 8%nat /\
  length (_pwm_out s) = 8%nat /\
  forall k, length (switch_get k (_switch_states s)) = 8%nat.

(** The fields that enabling and disabling features leave alone. *)
Definition frame (s s' : uio) : Prop :=
  _voltages_out s' = _voltages_out s /\ _currents_out s' = _currents_out s /\
  _pwm_out s' = _pwm_out s /\ _voltages_out_last s' = _voltages_out_last s /\
  _currents_out_last s' = _currents_out_last s /\ _pwm_out_last s' = _pwm_out_last s /\
  pins s' = pins s /\ uio_sent s' = uio_sent s /\
  forall k, length (switch_get k (_switch_states s')) = length (switch_get k (_switch_states s)).

Lemma frame_refl s : frame s s.
Proof. repeat split; reflexivity. Qed.

Lemma frame_trans s1 s2 s3 : frame s1 s2 -> frame s2 s3 -> frame s1 s3.
Proof.
  intros (A1 & B1 & C1 & D1 & E1 & F1 & G1 & H1 & I1) (A2 & B2 & C2 & D2 & E2 & F2 & G2 & H2 & I2).
  repeat split; try congruence. all: intros k; rewrite I2; apply I1.
Qed.

Lemma switch_get_put k k' l w :
  switch_get k' (switch_put k l w) = if decide (k = k') then l else switch_get k' w.
Proof. destruct k, k'; reflexivity. Qed.

Lemma set_op_mode_run p f st s :
  _set_op_mode p f st s =
  (inr tt, set_op_modes (<[p := <[Feature.value f := st]> (default ∅ (_op_modes s !! p))]>
                           (_op_modes s)) s).
Proof. reflexivity. Qed.

Lemma set_op_modes_frame x s : frame s (set_op_modes x s).
Proof. repeat split; reflexivity. Qed.

Lemma assign_switch_frame k p b s r s' :
  assign_switch k p b s = (r, s') -> frame s s'.
Proof.
  unfold assign_switch, setitem.
  destruct (Nat.ltb p _); intros H; injection H as <- <-; [|apply frame_refl].
  repeat split; try reflexivity. intros k'. cbn. rewrite switch_get_put.
  case_decide; subst; [apply length_insert|reflexivity].
Qed.

Lemma assign_switch_run k p b s :
  (p < length (switch_get k (_switch_states s)))%nat ->
  assign_switch k p b s =
  (inr tt, set_switch_states (switch_put k (<[p := b]> (switch_get k (_switch_states s)))
                                (_switch_states s)) s).
Proof.
  intros Hp. unfold assign_switch, setitem.
  replace (Nat.ltb p _) with true by (symmetry; apply Nat.ltb_lt; exact Hp). reflexivity.
Qed.

Lemma disable_feature_frame p f s :
  frame s (snd (Pin.disable_feature p f s)).
Proof.
  unfold Pin.disable_feature. rewrite (bind_inr _ _ s _ tt (set_op_mode_run p f _ s)).
  eapply frame_trans; [apply set_op_modes_frame|].
  destruct (feature_to_switch f) as [k|].
  - destruct (assign_switch k p false _) as [r s'] eqn:E. eapply assign_switch_frame, E.
  - apply frame_refl.
Qed.

Lemma disable_all_features_run p s :
  exists s', Pin.disable_all_features p s = (inr tt, s') /\ frame s s'.
Proof.
  unfold Pin.disable_all_features.
  generalize Pin.features_to_disable as fs. intros fs. revert s.
  induction fs as [|f fs IH]; intros s; cbn [foldr].
  - exists s. split; [reflexivity | apply frame_refl].
  - rewrite (bind_inr _ _ s _ tt (try_except_inr _ s)).
    destruct (IH (snd (Pin.disable_feature p f s))) as (s' & E & F).
    exists s'. split; [exact E|]. eapply frame_trans; [apply disable_feature_frame | exact F].
Qed.

Lemma assign_voltages_out_run p v s :
  (p < length (_voltages_out s))%nat ->
  assign_voltages_out p v s = (inr tt, set_voltages_out (<[p := v]> (_voltages_out s)) s).
Proof.
  intros Hp. unfold assign_voltages_out, setitem.
  replace (Nat.ltb p _) with true by (symmetry; apply Nat.ltb_lt; exact Hp). reflexivity.
Qed.

Lemma values_of_len8 {A} (l : list A) (d : A) :
  length l = 8%nat -> map (fun i => nth (i - 1) l d) (seq 1 8) = l.
Proof.
  intros H. do 8 (destruct l as [|? l]; [discriminate|]).
  destruct l; [reflexivity | discriminate].
Qed.

Definition voltage_msg (l : list Q) : message := (VOLTAGE_OUT_VAL_REQ, ValueData l).

Lemma send_voltage_out_req_run send_ok s :
  length (_voltages_out s) = 8%nat ->
  _send_voltage_out_req send_ok s =
  (inr tt, if send_ok (voltage_msg (_voltages_out s))
           then set_voltages_out_last (_voltages_out s)
                  (set_sent (uio_sent s ++ [voltage_msg (_voltages_out s)]) s)
           else s).
Proof.
  intros Hl.
  cbv [_send_voltage_out_req mbind M_bind get try_except send_can_message modify].
  rewrite (values_of_len8 _ _ Hl). unfold voltage_msg.
  destruct (send_ok _); reflexivity.
Qed.

Lemma bind_get {S B} (k : S -> M S B) s : (get ≫= k) s = k s s.
Proof. reflexivity. Qed.

Lemma bind_modify_pin {B} p f (k : unit -> M uio B) s :
  (modify_pin p f ≫= k) s = k tt (set_pins (alter f p (pins s)) s).
Proof. reflexivity. Qed.

Ltac step E := rewrite (bind_inr _ _ _ _ _ E); cbv beta.

Lemma set_voltage_run send_ok p v s :
  wf s -> (p < 8)%nat -> Pin.in_range 0 24 v = true ->
  exists s1,
    Pin.set_voltage send_ok p v s =
      (if negb (list_Qeqb (_voltages_out s1) (_voltages_out_last s1))
       then _send_voltage_out_req send_ok s1 else (inr tt, s1)) /\
    _voltages_out s1 = (<[p := v]> (_voltages_out s)) /\
    _voltages_out_last s1 = _voltages_out_last s /\
    uio_sent s1 = uio_sent s /\ wf s1.
Proof.
  intros (W1 & W2 & W3 & W4) Hp Hr. unfold Pin.set_voltage. rewrite Hr. cbn [negb].
  destruct (disable_all_features_run p s) as (s0 & E0 & F0 & F1 & F2 & F3 & F4 & F5 & F6 & F7 & F8).
  step E0. step (set_op_mode_run p Feature.SET_VOLTAGE FeatureState.OPERATE s0).
  step (set_op_mode_run p Feature.GET_VOLTAGE FeatureState.OPERATE
          (set_op_modes (<[p:=<[Feature.value Feature.SET_VOLTAGE:=FeatureState.OPERATE]>
                               (default ∅ (_op_modes s0 !! p))]> (_op_modes s0)) s0)).
  match goal with |- context [(assign_switch _ _ _ ≫= _) ?x] => set (s2 := x) end.
  assert (L2 : forall k, length (switch_get k (_switch_states s2)) = 8%nat)
    by (intros k; cbn; rewrite F8; apply W4).
  step (assign_switch_run vlt_o p true s2 ltac:(rewrite L2; exact Hp)).
  match goal with |- context [(assign_voltages_out _ _ ≫= _) ?x] => set (s3 := x) end.
  step (assign_voltages_out_run p v s3 ltac:(cbn; rewrite F0, W1; exact Hp)).
  match goal with |- context [(modify_pin _ _ ≫= _) ?x] => set (s4 := x) end.
  rewrite bind_modify_pin, bind_get. cbv beta.
  match goal with |- context [(if _ then _ else _) ?x] => exists x end.
  split; [destruct (negb _); reflexivity|].
  cbn. rewrite F0, F3, F7. refine (conj eq_refl (conj eq_refl (conj eq_refl _))).
  unfold wf; cbn. split; [rewrite length_insert, F0; exact W1|]. split; [rewrite F1; exact W2|].
  split; [rewrite F2; exact W3|].
  intros k. pose proof (F8 k) as Fk. pose proof (W4 k) as Wk.
  destruct k; cbn in *; rewrite ?length_insert; congruence.
Qed.

Lemma list_Qeqb_refl l : list_Qeqb l l = true.
Proof. induction l as [|x l IH]; cbn; [reflexivity|]. rewrite IH, Qeq_bool_refl. reflexivity. Qed.

Lemma wf_set_voltages_out_last x s : wf s -> wf (set_voltages_out_last x s).
Proof. intros W. exact W. Qed.

Lemma wf_set_sent l s : wf s -> wf (set_sent l s).
Proof. intros W. exact W. Qed.

Lemma set_voltage_step send_ok p v s :
  wf s -> (p < 8)%nat -> Pin.in_range 0 24 v = true ->
  let vo := <[p := v]> (_voltages_out s) in
  let r := Pin.set_voltage send_ok p v s in
  fst r = inr tt /\ _voltages_out (snd r) = vo /\ wf (snd r) /\
  (uio_sent (snd r), _voltages_out_last (snd r)) =
    (if list_Qeqb vo (_voltages_out_last s) then (uio_sent s, _voltages_out_last s)
     else if send_ok (voltage_msg vo) then (uio_sent s ++ [voltage_msg vo], vo)
     else (uio_sent s, _voltages_out_last s)).
Proof.
  intros W Hp Hr. cbv zeta.
  destruct (set_voltage_run send_ok p v s W Hp Hr) as (s1 & E & V & L & Se & W1).
  rewrite E, V, L. destruct (list_Qeqb _ (_voltages_out_last s)); cbn [negb].
  - cbn. rewrite V, Se, L. auto.
  - rewrite send_voltage_out_req_run by apply W1. rewrite V.
    destruct W1 as (A & B & C & D).
    destruct (send_ok _); cbn; rewrite ?Se, ?V, ?L; (split; [reflexivity|]);
      (split; [reflexivity|]); (split; [|reflexivity]);
      unfold wf; cbn; rewrite <- ?V; auto.
Qed.

Lemma wf_init_uio : wf init_uio.
Proof. repeat split; intros []; reflexivity. Qed.

Lemma in_range_out v : (v < 0 \/ 24 < v)%Q -> Pin.in_range 0 24 v = false.
Proof.
  intros H. unfold Pin.in_range. apply andb_false_iff.
  destruct H as [H|H]; [left|right]; apply not_true_iff_false; rewrite Qle_bool_iff;
  apply Qlt_not_le; exact H.
Qed.

Lemma set_voltage_out_of_range send_ok p v s :
  (v < 0 \/ 24 < v)%Q -> Pin.set_voltage send_ok p v s = (inl ValueError, s).
Proof. intros H. unfold Pin.set_voltage. rewrite (in_range_out v H). reflexivity. Qed.

End UioFacts.
Module ELoadFacts.
Import CanProtocol Device ELoad.

Definition opm (s : eload) (c : nat) (f : Feature.t) : option FeatureState.t :=
  _op_modes s !! c ≫= fun m => m !! Feature.value f.

(** [m] relates every state to the one it leaves, by [R], exception or not. *)
Definition keeps {A} (R : relation eload) (m : M eload A) : Prop :=
  forall s, R s (snd (m s)).

Definition same_modes (s s' : eload) : Prop := _op_modes s' = _op_modes s.
Definition same_shadow (s s' : eload) : Prop :=
  _op_modes s' = _op_modes s /\ _voltages_out s' = _voltages_out s /\
  _currents_out s' = _currents_out s.
Definition same_len (s s' : eload) : Prop :=
  length (_voltages_out s') = length (_voltages_out s) /\
  length (_currents_out s') = length (_currents_out s).

#[global] Instance same_modes_pre : PreOrder same_modes.
Proof. split; [intros s; reflexivity | intros a b c H1 H2; unfold same_modes in *; congruence]. Qed.
#[global] Instance same_shadow_pre : PreOrder same_shadow.
Proof.
  split; [intros s; repeat split | intros a b c (H1&H2&H3) (H4&H5&H6); repeat split; congruence].
Qed.
#[global] Instance same_len_pre : PreOrder same_len.
Proof.
  split; [intros s; repeat split | intros a b c (H1&H2) (H4&H5); split; congruence].
Qed.

Lemma keeps_bind {A B} R `{!PreOrder R} (m : M eload A) (f : A -> M eload B) :
  keeps R m -> (forall a, keeps R (f a)) -> keeps R (m ≫= f).
Proof.
  intros Hm Hf s. specialize (Hm s). unfold mbind, M_bind.
  destruct (m s) as [[e|a] s1]; cbn in *; [exact Hm|]. etransitivity; [exact Hm|apply Hf].
Qed.
Lemma keeps_get R `{!PreOrder R} : keeps R get.
Proof. intros s. cbn. reflexivity. Qed.
Lemma keeps_ret {A} R `{!PreOrder R} (x : A) : keeps R (mret x).
Proof. intros s. cbn. reflexivity. Qed.
Lemma keeps_raise {A} R `{!PreOrder R} e : keeps R (@raise eload A e).
Proof. intros s. cbn. reflexivity. Qed.
Lemma keeps_try_except R m : keeps R m -> keeps R (try_except m).
Proof. intros Hm s. specialize (Hm s). unfold try_except. destruct (m s) as [[e|a] s1]; exact Hm. Qed.
Lemma keeps_weaken R R' {A} (m : M eload A) :
  (forall s s', R s s' -> R' s s') -> keeps R m -> keeps R' m.
Proof. intros H Hm s. apply H, Hm. Qed.

Lemma shadow_modes s s' : same_shadow s s' -> same_modes s s'.
Proof. intros (H & _). exact H. Qed.
Lemma shadow_len s s' : same_shadow s s' -> same_len s s'.
Proof. intros (_ & H1 & H2). unfold same_len. rewrite H1, H2. auto. Qed.

Lemma keeps_send send_ok p d : keeps same_shadow (send_can_message send_ok p d).
Proof. intros s. unfold send_can_message. destruct (send_ok _); repeat split. Qed.
Lemma keeps_modify_voltages_last :
  keeps same_shadow (modify (fun s => set_voltages_out_last (_voltages_out s) s)).
Proof. intros s. repeat split. Qed.
Lemma keeps_modify_currents_last :
  keeps same_shadow (modify (fun s => set_currents_out_last (_currents_out s) s)).
Proof. intros s. repeat split. Qed.
Lemma keeps_modify_channel R `{!PreOrder R} c f :
  (forall s, R s (set_channels (alter f c (channels s)) s)) -> keeps R (modify_channel c f).
Proof. intros H s. apply H. Qed.
Lemma keeps_assign_voltages_out_modes c v : keeps same_modes (assign_voltages_out c v).
Proof. intros s. unfold assign_voltages_out. destruct (setitem _ _ _); reflexivity. Qed.
Lemma keeps_assign_currents_out_modes c v : keeps same_modes (assign_currents_out c v).
Proof. intros s. unfold assign_currents_out. destruct (setitem _ _ _); reflexivity. Qed.
Lemma keeps_assign_relay_states_shadow r b : keeps same_shadow (assign_relay_states r b).
Proof. intros s. unfold assign_relay_states. destruct (setitem _ _ _); repeat split. Qed.

Lemma setitem_length {A} (l l' : list A) i x : setitem l i x = inr l' -> length l' = length l.
Proof.
  unfold setitem. destruct (Nat.ltb _ _); intros H; inversion H. apply length_insert.
Qed.
Lemma keeps_assign_voltages_out_len c v : keeps same_len (assign_voltages_out c v).
Proof.
  intros s. unfold assign_voltages_out. destruct (setitem _ _ _) eqn:E; [reflexivity|].
  split; [apply (setitem_length _ _ _ _ E)|reflexivity].
Qed.
Lemma keeps_assign_currents_out_len c v : keeps same_len (assign_currents_out c v).
Proof.
  intros s. unfold assign_currents_out. destruct (setitem _ _ _) eqn:E; [reflexivity|].
  split; [reflexivity|apply (setitem_length _ _ _ _ E)].
Qed.
Lemma keeps_set_op_mode_len c f st : keeps same_len (_set_op_mode c f st).
Proof. intros s. split; reflexivity. Qed.

Create HintDb keeps.
#[local] Hint Resolve keeps_get keeps_ret keeps_raise keeps_send
  keeps_modify_voltages_last keeps_modify_currents_last
  keeps_assign_voltages_out_modes keeps_assign_currents_out_modes
  keeps_assign_relay_states_shadow keeps_assign_voltages_out_len
  keeps_assign_currents_out_len keeps_set_op_mode_len : keeps.
#[local] Hint Resolve shadow_modes shadow_len : keeps.

Ltac keeps_solve :=
  repeat first
    [ apply keeps_bind; [typeclasses eauto| |intros ?]
    | apply keeps_try_except
    | apply keeps_get | apply keeps_ret | apply keeps_raise
    | match goal with |- PreOrder _ => solve [typeclasses eauto | apply _] end
    | match goal with |- keeps _ (if ?b then _ else _) => destruct b end
    | apply keeps_modify_channel; [typeclasses eauto|intros ?; split; reflexivity]
    | solve [eauto with keeps]
    | solve [eapply keeps_weaken; [|eauto with keeps]; eauto with keeps] ].

Lemma keeps_send_voltage send_ok : keeps same_shadow (_send_voltage_out_req send_ok).
Proof. unfold _send_voltage_out_req. keeps_solve. Qed.
Lemma keeps_send_current send_ok : keeps same_shadow (_send_current_out_req send_ok).
Proof. unfold _send_current_out_req. keeps_solve. Qed.
Lemma keeps_send_op_mode send_ok : keeps same_shadow (_send_op_mode_req send_ok).
Proof. unfold _send_op_mode_req. keeps_solve. Qed.
Lemma keeps_send_relay send_ok : keeps same_shadow (_send_switch_relay_req send_ok).
Proof. unfold _send_switch_relay_req. keeps_solve. Qed.
#[local] Hint Resolve keeps_send_voltage keeps_send_current keeps_send_op_mode keeps_send_relay : keeps.

Lemma keeps_all_parameters send_ok : keeps same_shadow (_send_all_parameters send_ok).
Proof. unfold _send_all_parameters. keeps_solve. Qed.
Lemma keeps_set_relay send_ok r b : keeps same_shadow (set_relay send_ok r b).
Proof. unfold set_relay. keeps_solve. Qed.

Lemma keeps_set_current_len send_ok c i : keeps same_len (ELoadChannel.set_current send_ok c i).
Proof. unfold ELoadChannel.set_current. keeps_solve. Qed.
Lemma keeps_set_voltage_len send_ok c v : keeps same_len (ELoadChannel.set_voltage send_ok c v).
Proof. unfold ELoadChannel.set_voltage. keeps_solve. Qed.
Lemma keeps_run_op_len send_ok o : keeps same_len (run_op send_ok o).
Proof.
  destruct o; cbn [run_op].
  - apply keeps_set_current_len.
  - apply keeps_set_voltage_len.
  - apply keeps_set_current_len.
  - eapply keeps_weaken; [apply shadow_len | apply keeps_set_relay].
  - eapply keeps_weaken; [apply shadow_len | apply keeps_all_parameters].
Qed.

Lemma bind_set_op_mode {B} c f st (k : unit -> M eload B) s :
  (_set_op_mode c f st ≫= k) s =
  k tt (set_op_modes (<[c := <[Feature.value f := st]> (default ∅ (_op_modes s !! c))]>
                       (_op_modes s)) s).
Proof. reflexivity. Qed.

Lemma set_current_opm send_ok c i s :
  (Qle_bool 0 i && Qle_bool i 10) = true ->
  let s' := snd (ELoadChannel.set_current send_ok c i s) in
  opm s' c Feature.SET_CURRENT = Some FeatureState.OPERATE /\
  opm s' c Feature.GET_CURRENT = Some FeatureState.OPERATE /\
  opm s' c Feature.SET_VOLTAGE = Some FeatureState.DISABLED /\
  opm s' c Feature.GET_VOLTAGE = Some FeatureState.OPERATE /\
  forall c', c' <> c -> _op_modes s' !! c' = _op_modes s !! c'.
Proof.
  intros Hr s'. subst s'. unfold ELoadChannel.set_current. rewrite Hr. cbn [negb].
  rewrite !bind_set_op_mode.
  match goal with |- context [snd (?m ?x)] =>
    assert (K : keeps same_modes m) by keeps_solve; unfold opm; rewrite (K x) end.
  cbn [_op_modes set_op_modes Feature.value].
  split; [|split; [|split; [|split]]]; [simplify_map_eq; reflexivity ..|].
  intros c' Hc. simplify_map_eq. reflexivity.
Qed.

Lemma set_voltage_opm send_ok c v s :
  (Qle_bool 0 v && Qle_bool v 24) = true ->
  let s' := snd (ELoadChannel.set_voltage send_ok c v s) in
  opm s' c Feature.SET_VOLTAGE = Some FeatureState.OPERATE /\
  opm s' c Feature.GET_VOLTAGE = Some FeatureState.OPERATE /\
  opm s' c Feature.SET_CURRENT = Some FeatureState.DISABLED /\
  opm s' c Feature.GET_CURRENT = Some FeatureState.DISABLED /\
  forall c', c' <> c -> _op_modes s' !! c' = _op_modes s !! c'.
Proof.
  intros Hr s'. subst s'. unfold ELoadChannel.set_voltage. rewrite Hr. cbn [negb].
  rewrite !bind_set_op_mode.
  match goal with |- context [snd (?m ?x)] =>
    assert (K : keeps same_modes m) by keeps_solve; unfold opm; rewrite (K x) end.
  cbn [_op_modes set_op_modes Feature.value].
  split; [|split; [|split; [|split]]]; [simplify_map_eq; reflexivity ..|].
  intros c' Hc. simplify_map_eq. reflexivity.
Qed.

(** No channel has both set-features in [OPERATE]. *)
Definition exclusive (s : eload) : Prop :=
  forall c, ~ (opm s c Feature.SET_VOLTAGE = Some FeatureState.OPERATE /\
               opm s c Feature.SET_CURRENT = Some FeatureState.OPERATE).

Lemma exclusive_same_modes s s' : same_modes s s' -> exclusive s -> exclusive s'.
Proof. intros H Ex c. unfold opm. rewrite H. apply Ex. Qed.

Lemma exclusive_update s s' c :
  (forall c', c' <> c -> _op_modes s' !! c' = _op_modes s !! c') ->
  ~ (opm s' c Feature.SET_VOLTAGE = Some FeatureState.OPERATE /\
     opm s' c Feature.SET_CURRENT = Some FeatureState.OPERATE) ->
  exclusive s -> exclusive s'.
Proof.
  intros Ho Hc Ex c'. destruct (decide (c' = c)) as [->|Hne]; [exact Hc|].
  unfold opm. rewrite (Ho c' Hne). apply Ex.
Qed.

Lemma set_current_exclusive send_ok c i s :
  exclusive s -> exclusive (snd (ELoadChannel.set_current send_ok c i s)).
Proof.
  intros Ex. destruct (Qle_bool 0 i && Qle_bool i 10) eqn:Hr.
  - destruct (set_current_opm send_ok c i s Hr) as (_ & _ & H3 & _ & H5).
    apply (exclusive_update s _ c H5); [rewrite H3; intros [? _]; discriminate | exact Ex].
  - unfold ELoadChannel.set_current. rewrite Hr. exact Ex.
Qed.

Lemma set_voltage_exclusive send_ok c v s :
  exclusive s -> exclusive (snd (ELoadChannel.set_voltage send_ok c v s)).
Proof.
  intros Ex. destruct (Qle_bool 0 v && Qle_bool v 24) eqn:Hr.
  - destruct (set_voltage_opm send_ok c v s Hr) as (_ & _ & H3 & _ & H5).
    apply (exclusive_update s _ c H5); [rewrite H3; intros [_ ?]; discriminate | exact Ex].
  - unfold ELoadChannel.set_voltage. rewrite Hr. exact Ex.
Qed.

Lemma run_op_exclusive send_ok o s : exclusive s -> exclusive (snd (run_op send_ok o s)).
Proof.
  destruct o; cbn [run_op].
  - apply set_current_exclusive.
  - apply set_voltage_exclusive.
  - apply set_current_exclusive.
  - apply exclusive_same_modes, shadow_modes, keeps_set_relay.
  - apply exclusive_same_modes, shadow_modes, keeps_all_parameters.
Qed.

Lemma run_ops_exclusive send_ok os s : exclusive s -> exclusive (run_ops send_ok os s).
Proof.
  revert s. induction os as [|o os IH]; intros s Ex; [exact Ex|].
  apply IH, run_op_exclusive, Ex.
Qed.

Lemma init_op_modes_empty c m : _op_modes init_eload !! c = Some m -> m = ∅.
Proof.
  intros H. apply elem_of_list_to_map_2 in H.
  apply list_elem_of_In, in_map_iff in H. destruct H as (i & E & _). congruence.
Qed.

Lemma opm_init c f : opm init_eload c f = None.
Proof.
  unfold opm. destruct (_op_modes init_eload !! c) as [m|] eqn:E; [|reflexivity].
  cbn. rewrite (init_op_modes_empty c m E). apply lookup_empty.
Qed.

Lemma exclusive_init : exclusive init_eload.
Proof. intros c [H _]. rewrite opm_init in H. discriminate. Qed.
Lemma bind_assign_voltages_out {B} c v (k : unit -> M eload B) s :
  (c < length (_voltages_out s))%nat ->
  (assign_voltages_out c v ≫= k) s = k tt (set_voltages_out (<[c := v]> (_voltages_out s)) s).
Proof.
  intros H. unfold mbind, M_bind, assign_voltages_out, setitem.
  rewrite (proj2 (Nat.ltb_lt _ _) H). reflexivity.
Qed.
Lemma bind_assign_currents_out {B} c v (k : unit -> M eload B) s :
  (c < length (_currents_out s))%nat ->
  (assign_currents_out c v ≫= k) s = k tt (set_currents_out (<[c := v]> (_currents_out s)) s).
Proof.
  intros H. unfold mbind, M_bind, assign_currents_out, setitem.
  rewrite (proj2 (Nat.ltb_lt _ _) H). reflexivity.
Qed.
Lemma bind_modify_channel {B} c f (k : unit -> M eload B) s :
  (modify_channel c f ≫= k) s = k tt (set_channels (alter f c (channels s)) s).
Proof. reflexivity. Qed.

Lemma set_current_values send_ok c i s :
  (Qle_bool 0 i && Qle_bool i 10) = true ->
  (c < length (_voltages_out s))%nat -> (c < length (_currents_out s))%nat ->
  let s' := snd (ELoadChannel.set_current send_ok c i s) in
  _currents_out s' = <[c := i]> (_currents_out s) /\
  _voltages_out s' = <[c := 0%Q]> (_voltages_out s).
Proof.
  intros Hr Hv Hc s'. subst s'. unfold ELoadChannel.set_current. rewrite Hr. cbn [negb].
  rewrite !bind_set_op_mode, bind_assign_currents_out by exact Hc.
  rewrite bind_modify_channel, bind_assign_voltages_out by exact Hv.
  match goal with |- context [snd (?m ?x)] =>
    assert (K : keeps same_shadow m) by keeps_solve; destruct (K x) as (_ & -> & ->) end.
  split; reflexivity.
Qed.

Lemma set_voltage_values send_ok c v s :
  (Qle_bool 0 v && Qle_bool v 24) = true ->
  (c < length (_voltages_out s))%nat -> (c < length (_currents_out s))%nat ->
  let s' := snd (ELoadChannel.set_voltage send_ok c v s) in
  _voltages_out s' = <[c := v]> (_voltages_out s) /\
  _currents_out s' = <[c := 0%Q]> (_currents_out s).
Proof.
  intros Hr Hv Hc s'. subst s'. unfold ELoadChannel.set_voltage. rewrite Hr. cbn [negb].
  rewrite !bind_set_op_mode, bind_assign_voltages_out by exact Hv.
  rewrite bind_modify_channel, bind_assign_currents_out by exact Hc.
  rewrite bind_modify_channel.
  match goal with |- context [snd (?m ?x)] =>
    assert (K : keeps same_shadow m) by keeps_solve; destruct (K x) as (_ & -> & ->) end.
  split; reflexivity.
Qed.

Lemma run_ops_len send_ok os s :
  same_len s (run_ops send_ok os s).
Proof.
  revert s. induction os as [|o os IH]; intros s; [reflexivity|].
  cbn [run_ops]. etransitivity; [apply keeps_run_op_len | apply IH].
Qed.

Lemma run_ops_init_len send_ok os :
  length (_voltages_out (run_ops send_ok os init_eload)) = 8%nat /\
  length (_currents_out (run_ops send_ok os init_eload)) = 8%nat.
Proof. destruct (run_ops_len send_ok os init_eload) as [-> ->]. split; reflexivity. Qed.

End ELoadFacts.

Module TaskMonitorFacts.
Import Device TaskMonitor.

Section Facts.
Context {C W : Type}.
Variable run_callback : C -> M W unit.
Implicit Types (ts : list (Task C)) (t : Task C) (due : list (string * C)).

Definition find_task (n : string) (ts : list (Task C)) : option (Task C) :=
  find (fun t => String.eqb (name t) n) ts.

Definition due (now : float) (t : Task C) : bool :=
  enabled t && (float_of_Z (period_us t) / 1e6 <=? now - last_run t)%float.

Lemma find_update n n' f ts :
  (forall t, name (f t) = name t) ->
  find_task n (update_task n' f ts) =
  if String.eqb n' n then option_map f (find_task n ts) else find_task n ts.
Proof.
  intros Hf. unfold find_task, update_task.
  induction ts as [|a ts IH]; cbn; [destruct (String.eqb n' n); reflexivity|].
  destruct (String.eqb_spec (name a) n') as [E1|E1]; cbn; rewrite ?Hf;
    destruct (String.eqb_spec (name a) n) as [E2|E2]; rewrite ?IH;
    destruct (String.eqb_spec n' n) as [E3|E3]; subst; cbn; try reflexivity; try congruence.
Qed.

Lemma collect_find now n ts :
  find_task n (fst (collect now ts)) =
  option_map (fun t => if due now t then set_last_run now t else t) (find_task n ts).
Proof.
  unfold find_task. induction ts as [|a ts IH]; [reflexivity|]. cbn [collect].
  destruct (collect now ts) as [rest' d]. cbn in IH |- *.
  change (enabled a && (float_of_Z (period_us a) / 1e6 <=? now - last_run a)%float)
    with (due now a).
  destruct (due now a) eqn:Ed; cbn; destruct (String.eqb (name a) n); cbn; rewrite ?Ed;
    try reflexivity; exact IH.
Qed.

Lemma collect_names now ts : map name (fst (collect now ts)) = map name ts.
Proof.
  induction ts as [|a ts IH]; [reflexivity|]. cbn [collect].
  destruct (collect now ts) as [rest' d]. cbn in IH |- *.
  destruct (enabled a && _); cbn; rewrite IH; reflexivity.
Qed.

Definition for_name (n : string) (due : list (string * C)) : list (string * C) :=
  List.filter (fun p => String.eqb (fst p) n) due.

Lemma collect_for_name_absent now n ts :
  n ∉ map name ts -> for_name n (snd (collect now ts)) = [].
Proof.
  induction ts as [|a ts IH]; intros Hn; [reflexivity|]. cbn [collect].
  destruct (collect now ts) as [rest' d] eqn:E. cbn in Hn.
  apply not_elem_of_cons in Hn as [Hna Hn].
  specialize (IH Hn). cbn in IH.
  destruct (enabled a && _); cbn; [|exact IH].
  destruct (String.eqb_spec (name a) n); [congruence|exact IH].
Qed.

Lemma collect_for_name now n t ts :
  NoDup (map name ts) -> find_task n ts = Some t ->
  for_name n (snd (collect now ts)) = if due now t then [(n, callback t)] else [].
Proof.
  unfold find_task. induction ts as [|a ts IH]; intros Hnd Hf; [discriminate|].
  cbn in Hnd. apply NoDup_cons in Hnd as [Ha Hnd]. cbn [collect].
  pose proof (collect_for_name_absent now (name a) ts Ha) as Habs.
  destruct (collect now ts) as [rest' d] eqn:E. cbn in Hf, Habs |- *.
  destruct (String.eqb_spec (name a) n) as [<-|Hne].
  - injection Hf as <-. unfold due.
    destruct (enabled a && _); cbn; [rewrite String.eqb_refl, Habs; reflexivity | exact Habs].
  - rewrite <- (IH Hnd Hf). cbn.
    destruct (enabled a && _); cbn; [|reflexivity].
    apply String.eqb_neq in Hne. rewrite Hne. reflexivity.
Qed.

Lemma on_error_name t : name (on_error t) = name t.
Proof. unfold on_error. destruct (10 <=? _); reflexivity. Qed.
Lemma on_success_name t : name (on_success t) = name t.
Proof. reflexivity. Qed.

Lemma update_task_names n f ts :
  (forall t, name (f t) = name t) -> map name (update_task n f ts) = map name ts.
Proof.
  intros Hf. unfold update_task. rewrite map_map. apply map_ext. intros t.
  destruct (String.eqb _ _); [apply Hf | reflexivity].
Qed.

Definition outcome (r : exn + unit) : Task C -> Task C :=
  match r with inr _ => on_success | inl _ => on_error end.

Lemma outcome_name r t : name (outcome r t) = name t.
Proof. destruct r; [apply on_error_name | apply on_success_name]. Qed.

Lemma execute_names due ts w :
  map name (fst (fst (execute run_callback due ts w))) = map name ts.
Proof.
  revert ts w. induction due as [|[n cb] due IH]; intros ts w; [reflexivity|].
  cbn [execute]. destruct (run_callback cb w) as [r w'].
  match goal with |- context [execute run_callback due ?ts' w'] =>
    specialize (IH ts' w'); destruct (execute run_callback due ts' w') as [[ts'' w''] ev] end.
  cbn in IH |- *. rewrite IH.
  destruct r; apply update_task_names; [apply on_error_name | apply on_success_name].
Qed.

Lemma execute_find_absent n due ts w :
  for_name n due = [] -> find_task n (fst (fst (execute run_callback due ts w))) = find_task n ts.
Proof.
  revert ts w. induction due as [|[n' cb] due IH]; intros ts w Hd; [reflexivity|].
  cbn in Hd. cbn [execute]. destruct (run_callback cb w) as [r w'].
  destruct (String.eqb_spec n' n) as [|Hne]; [discriminate|].
  match goal with |- context [execute run_callback due ?ts' w'] =>
    specialize (IH ts' w' Hd); destruct (execute run_callback due ts' w') as [[ts'' w''] ev] end.
  cbn in IH |- *. rewrite IH.
  assert (Hf : find_task n (update_task n' (outcome r) ts) = find_task n ts).
  { rewrite find_update by apply outcome_name. apply String.eqb_neq in Hne. rewrite Hne. reflexivity. }
  destruct r; exact Hf.
Qed.

Lemma execute_find_one n cb f due ts w :
  for_name n due = [(n, cb)] -> (forall w, outcome (fst (run_callback cb w)) = f) ->
  find_task n (fst (fst (execute run_callback due ts w))) = option_map f (find_task n ts).
Proof.
  revert ts w. induction due as [|[n' cb'] due IH]; intros ts w Hd Hcb; [discriminate|].
  cbn in Hd. cbn [execute]. pose proof (Hcb w) as Hw.
  destruct (run_callback cb' w) as [r w'] eqn:Er.
  destruct (String.eqb_spec n' n) as [<-|Hne].
  - injection Hd as <- Hd. rewrite Er in Hw. cbn in Hw.
    match goal with |- context [execute run_callback due ?ts' w'] =>
      pose proof (execute_find_absent n' due ts' w' Hd) as IH';
      destruct (execute run_callback due ts' w') as [[ts'' w''] ev] end.
    cbn in IH' |- *. rewrite IH'. subst f.
    assert (Hf : find_task n' (update_task n' (outcome r) ts) = option_map (outcome r) (find_task n' ts)).
    { rewrite find_update by apply outcome_name. rewrite String.eqb_refl. reflexivity. }
    destruct r; exact Hf.
  - match goal with |- context [execute run_callback due ?ts' w'] =>
      specialize (IH ts' w' Hd Hcb); destruct (execute run_callback due ts' w') as [[ts'' w''] ev] end.
    cbn in IH |- *. rewrite IH.
    assert (Hf : find_task n (update_task n' (outcome r) ts) = find_task n ts).
    { rewrite find_update by apply outcome_name. apply String.eqb_neq in Hne. rewrite Hne. reflexivity. }
    destruct r; rewrite <- Hf; reflexivity.
Qed.

Lemma tick_find now n t f ts w :
  NoDup (map name ts) -> find_task n ts = Some t ->
  (forall w, outcome (fst (run_callback (callback t) w)) = f) ->
  find_task n (fst (fst (tick run_callback now ts w))) =
  Some (if due now t then f (set_last_run now t) else t).
Proof.
  intros Hnd Hf Hcb. unfold tick.
  pose proof (collect_find now n ts) as Hc1. pose proof (collect_for_name now n t ts Hnd Hf) as Hc2.
  rewrite Hf in Hc1. destruct (collect now ts) as [ts1 d]. cbn [fst snd option_map] in Hc1, Hc2.
  destruct (due now t).
  - pose proof (execute_find_one n (callback t) f d ts1 w Hc2 Hcb) as He.
    destruct (execute run_callback d ts1 w) as [[ts2 w2] ev]. cbn [fst snd] in He |- *.
    rewrite He, Hc1. reflexivity.
  - pose proof (execute_find_absent n d ts1 w Hc2) as He.
    destruct (execute run_callback d ts1 w) as [[ts2 w2] ev]. cbn [fst snd] in He |- *.
    rewrite He, Hc1. reflexivity.
Qed.

Lemma tick_names now ts w : map name (fst (fst (tick run_callback now ts w))) = map name ts.
Proof.
  unfold tick. pose proof (collect_names now ts) as Hc.
  destruct (collect now ts) as [ts1 d]. cbn in Hc.
  pose proof (execute_names d ts1 w) as He.
  destruct (execute run_callback d ts1 w) as [[ts2 w2] ev]. cbn in He |- *. congruence.
Qed.

(** Tick times each of which passes the due test of a task with period
    [p] last run at the previous one (the first: at [L]), computed in
    doubles as [_run] does. *)
Fixpoint spaced (p : Z) (L : float) (times : list float) : Prop :=
  match times with
  | [] => True
  | x :: r => (float_of_Z p / 1e6 <=? x - L)%float = true /\ spaced p x r
  end.

Lemma run_ticks_failing n times : forall ts w t L,
  NoDup (map name ts) -> find_task n ts = Some t ->
  (forall w, outcome (fst (run_callback (callback t) w)) = on_error) ->
  0 <= error_count t <= 10 -> enabled t = (error_count t <? 10) ->
  (enabled t = true -> last_run t = L) -> spaced (period_us t) L times ->
  exists t', find_task n (fst (fst (run_ticks run_callback times ts w))) = Some t' /\
    callback t' = callback t /\
    error_count t' = Z.min (error_count t + Z.of_nat (length times)) 10 /\
    enabled t' = (error_count t' <? 10).
Proof.
  induction times as [|x times IH]; intros ts w t L Hnd Hf Hcb Hc He Hl Hs.
  - exists t. split; [exact Hf|]. cbn. split; [reflexivity|]. rewrite Z.add_0_r, Z.min_l by lia.
    split; [reflexivity | exact He].
  - destruct Hs as [Hx Hs]. cbn [run_ticks].
    pose proof (tick_find x n t on_error ts w Hnd Hf Hcb) as Ht.
    pose proof (tick_names x ts w) as Hn.
    destruct (tick run_callback x ts w) as [[ts1 w1] ev1]. cbn in Ht, Hn.
    destruct (enabled t) eqn:Ee.
    + assert (Hd : due x t = true).
      { unfold due. rewrite Ee, (Hl eq_refl). exact Hx. }
      rewrite Hd in Ht.
      assert (Hlt : error_count t < 10) by (symmetry in He; apply Z.ltb_lt in He; exact He).
      edestruct (IH ts1 w1 (on_error (set_last_run x t)) x) as (t' & H1 & H2 & H3 & H4).
      * rewrite Hn. exact Hnd.
      * exact Ht.
      * unfold on_error. destruct (10 <=? _); exact Hcb.
      * unfold on_error. destruct (10 <=? _); cbn; lia.
      * unfold on_error. cbn. destruct (10 <=? error_count t + 1) eqn:E10; cbn.
        -- symmetry. apply Z.ltb_ge. apply Z.leb_le in E10. exact E10.
        -- rewrite Ee. symmetry. apply Z.ltb_lt. apply Z.leb_gt in E10. exact E10.
      * unfold on_error. destruct (10 <=? _); reflexivity.
      * unfold on_error. destruct (10 <=? _); exact Hs.
      * destruct (run_ticks run_callback times ts1 w1) as [[ts2 w2] ev2]. cbn in H1 |- *.
        exists t'. split; [exact H1|]. split.
        { rewrite H2. unfold on_error. destruct (10 <=? _); reflexivity. }
        split; [|exact H4]. rewrite H3. unfold on_error. destruct (10 <=? _); cbn; lia.
    + assert (Hd : due x t = false) by (unfold due; rewrite Ee; reflexivity).
      rewrite Hd in Ht.
      assert (H10 : error_count t = 10) by (symmetry in He; apply Z.ltb_ge in He; lia).
      edestruct (IH ts1 w1 t x) as (t' & H1 & H2 & H3 & H4);
        [rewrite Hn; exact Hnd | exact Ht | exact Hcb | exact Hc | rewrite Ee; exact He
        | rewrite Ee; discriminate | exact Hs |].
      destruct (run_ticks run_callback times ts1 w1) as [[ts2 w2] ev2]. cbn [fst snd] in H1 |- *.
      exists t'. split; [exact H1|]. split; [exact H2|]. split; [|exact H4].
      rewrite H3, H10. cbn [length]. lia.
Qed.

Lemma lock_ok_app h l1 l2 :
  lock_ok h l1 = true -> lock_ok h (l1 ++ l2) = lock_ok false l2.
Proof.
  revert h. induction l1 as [|e l1 IH]; intros h H.
  - destruct h; [discriminate | reflexivity].
  - destruct e, h; cbn in H |- *; try discriminate; apply IH, H.
Qed.

Lemma execute_lock_ok due ts w : lock_ok false (snd (execute run_callback due ts w)) = true.
Proof.
  revert ts w. induction due as [|[n cb] due IH]; intros ts w; [reflexivity|].
  cbn [execute]. destruct (run_callback cb w) as [r w'].
  match goal with |- context [execute run_callback due ?ts' w'] =>
    specialize (IH ts' w'); destruct (execute run_callback due ts' w') as [[ts'' w''] ev] end.
  exact IH.
Qed.

Lemma tick_lock_ok now ts w : lock_ok false (snd (tick run_callback now ts w)) = true.
Proof.
  unfold tick. destruct (collect now ts) as [ts1 d].
  pose proof (execute_lock_ok d ts1 w) as H.
  destruct (execute run_callback d ts1 w) as [[ts2 w2] ev]. exact H.
Qed.

Lemma run_ticks_lock_ok times ts w : lock_ok false (snd (run_ticks run_callback times ts w)) = true.
Proof.
  revert ts w. induction times as [|x times IH]; intros ts w; [reflexivity|].
  cbn [run_ticks]. pose proof (tick_lock_ok x ts w) as H1.
  destruct (tick run_callback x ts w) as [[ts1 w1] ev1].
  specialize (IH ts1 w1). destruct (run_ticks run_callback times ts1 w1) as [[ts2 w2] ev2].
  cbn in H1, IH |- *. rewrite (lock_ok_app false ev1 ev2 H1). exact IH.
Qed.

Lemma tick_success_resets now n t ts w :
  NoDup (map name ts) -> find_task n ts = Some t ->
  (forall w, outcome (fst (run_callback (callback t) w)) = on_success) -> due now t = true ->
  exists t', find_task n (fst (fst (tick run_callback now ts w))) = Some t' /\
    error_count t' = 0 /\ enabled t' = enabled t /\ last_run t' = now.
Proof.
  intros Hnd Hf Hcb Hd. rewrite (tick_find now n t on_success ts w Hnd Hf Hcb), Hd.
  eexists. split; [reflexivity|]. cbn. auto.
Qed.
End Facts.
End TaskMonitorFacts.

Module SDKFacts.
Import SDK.

Lemma connect_existing t mac a s d :
  _connected_devices s !! upper mac = Some d -> connect t mac a s = (d, s).
Proof. intros H. unfold connect. rewrite H. reflexivity. Qed.

Lemma connect_lookup t mac a s :
  _connected_devices (snd (connect t mac a s)) !! upper mac = Some (fst (connect t mac a s)).
Proof.
  unfold connect. destruct (_connected_devices s !! upper mac) eqn:E; [exact E|].
  cbn. apply lookup_insert_eq.
Qed.

Lemma connect_new t mac a s :
  _connected_devices s !! upper mac = None -> dtype (fst (connect t mac a s)) = t.
Proof. intros H. unfold connect. rewrite H. reflexivity. Qed.
End SDKFacts.


Module UioExtraFacts.
Import CanProtocol Device UIO UioFacts.

(** The user-visible shadow of a UIO: what the setters write. *)
Definition same_user (s s' : uio) : Prop :=
  _op_modes s' = _op_modes s /\ _voltages_out s' = _voltages_out s /\
  _currents_out s' = _currents_out s /\ _pwm_out s' = _pwm_out s /\
  _switch_states s' = _switch_states s /\ pins s' = pins s.

Definition opm_u (s : uio) (p : nat) (f : Feature.t) : option FeatureState.t :=
  _op_modes s !! p ≫= fun m => m !! Feature.value f.

Lemma send_current_user send_ok s :
  fst (_send_current_out_req send_ok s) = inr tt /\
  same_user s (snd (_send_current_out_req send_ok s)).
Proof.
  cbv [_send_current_out_req mbind M_bind get try_except send_can_message modify].
  destruct (send_ok _); repeat split.
Qed.

Lemma send_pwm_user send_ok s :
  fst (_send_pwm_out_req send_ok s) = inr tt /\
  same_user s (snd (_send_pwm_out_req send_ok s)).
Proof.
  cbv [_send_pwm_out_req mbind M_bind get try_except send_can_message modify].
  destruct (send_ok _); repeat split.
Qed.

Lemma send_switch_user send_ok s :
  fst (_send_switch_output_req send_ok s) = inr tt /\
  same_user s (snd (_send_switch_output_req send_ok s)).
Proof.
  cbv [_send_switch_output_req mbind M_bind get try_except send_can_message modify].
  destruct (send_ok _); repeat split.
Qed.

Lemma assign_currents_out_run p v s :
  (p < length (_currents_out s))%nat ->
  assign_currents_out p v s = (inr tt, set_currents_out (<[p := v]> (_currents_out s)) s).
Proof.
  intros Hp. unfold assign_currents_out, setitem.
  replace (Nat.ltb p _) with true by (symmetry; apply Nat.ltb_lt; exact Hp). reflexivity.
Qed.

Lemma assign_pwm_out_run p v s :
  (p < length (_pwm_out s))%nat ->
  assign_pwm_out p v s = (inr tt, set_pwm_out (<[p := v]> (_pwm_out s)) s).
Proof.
  intros Hp. unfold assign_pwm_out, setitem.
  replace (Nat.ltb p _) with true by (symmetry; apply Nat.ltb_lt; exact Hp). reflexivity.
Qed.

Lemma nth_alter_current (l : list pin_state) p f :
  (forall x, current_set (f x) = 0%Q) ->
  current_set (nth p (alter f p l) init_pin_state) = 0%Q.
Proof.
  intros Hf. revert p. induction l as [|x l IH]; intros [|p]; cbn; auto.
Qed.

Lemma set_tx_current_run send_ok p i s :
  wf s -> (p < 8)%nat -> Pin.in_range 0 20 i = true ->
  let r := Pin.set_tx_current send_ok p i s in
  fst r = inr tt /\ _currents_out (snd r) = <[p := i]> (_currents_out s) /\
  Pin.get_tx_current p (snd r) = 0%Q /\
  opm_u (snd r) p Feature.SET_CURRENT = Some FeatureState.OPERATE /\
  switch_get cur_o (_switch_states (snd r)) !! p = Some true.
Proof.
  intros (W1 & W2 & W3 & W4) Hp Hr. cbv zeta. unfold Pin.set_tx_current. rewrite Hr. cbn [negb].
  destruct (disable_all_features_run p s) as (s0 & E0 & F0 & F1 & F2 & F3 & F4 & F5 & F6 & F7 & F8).
  step E0. step (set_op_mode_run p Feature.SET_CURRENT FeatureState.OPERATE s0).
  match goal with |- context [(assign_switch _ _ _ ≫= _) ?x] => set (s2 := x) end.
  assert (L2 : forall k, length (switch_get k (_switch_states s2)) = 8%nat)
    by (intros k; cbn; rewrite F8; apply W4).
  step (assign_switch_run cur_o p true s2 ltac:(rewrite L2; exact Hp)).
  match goal with |- context [(assign_currents_out _ _ ≫= _) ?x] => set (s3 := x) end.
  step (assign_currents_out_run p i s3 ltac:(cbn; rewrite F1, W2; exact Hp)).
  rewrite bind_modify_pin, bind_get. cbv beta.
  match goal with |- context [(if _ then _ else _) ?x] => set (s5 := x) end.
  match goal with |- context [(if ?b then ?m1 else ?m2) s5] =>
    assert (G : fst ((if b then m1 else m2) s5) = inr tt /\
                same_user s5 (snd ((if b then m1 else m2) s5)))
      by (destruct b; [apply send_current_user | repeat split]) end.
  destruct G as (G0 & G1 & G2 & G3 & G4 & G5 & G6).
  split; [exact G0|].
  unfold opm_u, Pin.get_tx_current. rewrite G1, G3, G5, G6. subst s5 s3 s2. cbn.
  rewrite F1. split; [reflexivity|].
  split; [apply nth_alter_current; reflexivity|].
  split; [simplify_map_eq; reflexivity|].
  apply list_lookup_insert_eq. pose proof (F8 cur_o) as Fc. pose proof (W4 cur_o) as Wc.
  cbn in Fc, Wc |- *. lia.
Qed.

Lemma nth_alter_lt {A} (l : list A) p f d :
  (p < length l)%nat -> nth p (alter f p l) d = f (nth p l d).
Proof.
  revert p. induction l as [|x l IH]; intros [|p] Hp; cbn in *; try lia; auto.
  apply IH. lia.
Qed.

Lemma set_pwm_run send_ok p f d v s :
  wf s -> (p < 8)%nat -> (p < length (pins s))%nat ->
  Pin.in_range 0 5000 f = true -> Pin.in_range 0 100 d = true ->
  let r := Pin.set_pwm send_ok p f d v s in
  fst r = inr tt /\ _pwm_out (snd r) = <[p := (f, d, 5%Q)]> (_pwm_out s) /\
  pwm_voltage_set (nth p (pins (snd r)) init_pin_state) = 5%Q /\
  opm_u (snd r) p Feature.SET_PWM = Some FeatureState.OPERATE /\
  opm_u (snd r) p Feature.GET_PWM = Some FeatureState.OPERATE /\
  switch_get pwm (_switch_states (snd r)) !! p = Some true /\
  switch_get icu (_switch_states (snd r)) !! p = Some true.
Proof.
  intros (W1 & W2 & W3 & W4) Hp Hpins Hf Hd. cbv zeta. unfold Pin.set_pwm. rewrite Hf, Hd.
  cbn [negb].
  destruct (disable_all_features_run p s) as (s0 & E0 & F0 & F1 & F2 & F3 & F4 & F5 & F6 & F7 & F8).
  step E0. step (set_op_mode_run p Feature.SET_PWM FeatureState.OPERATE s0).
  match goal with |- context [(_set_op_mode _ _ _ ≫= _) ?x] => set (s1 := x) end.
  step (set_op_mode_run p Feature.GET_PWM FeatureState.OPERATE s1).
  match goal with |- context [(assign_switch _ _ _ ≫= _) ?x] => set (s2 := x) end.
  assert (L2 : forall k, length (switch_get k (_switch_states s2)) = 8%nat)
    by (intros k; cbn; rewrite F8; apply W4).
  step (assign_switch_run pwm p true s2 ltac:(rewrite L2; exact Hp)).
  match goal with |- context [(assign_switch _ _ _ ≫= _) ?x] => set (s3 := x) end.
  assert (L3 : forall k, length (switch_get k (_switch_states s3)) = 8%nat).
  { intros k. subst s3. cbn [_switch_states set_switch_states]. rewrite switch_get_put.
    case_decide; subst; rewrite ?length_insert; apply L2. }
  step (assign_switch_run icu p true s3 ltac:(rewrite L3; exact Hp)).
  match goal with |- context [(assign_pwm_out _ _ ≫= _) ?x] => set (s4 := x) end.
  step (assign_pwm_out_run p (f, d, 5%Q) s4 ltac:(cbn; rewrite F2, W3; exact Hp)).
  rewrite bind_modify_pin, bind_get. cbv beta.
  match goal with |- context [(if _ then _ else _) ?x] => set (s5 := x) end.
  match goal with |- context [(if ?b then ?m1 else ?m2) s5] =>
    assert (G : fst ((if b then m1 else m2) s5) = inr tt /\
                same_user s5 (snd ((if b then m1 else m2) s5)))
      by (destruct b; [apply send_pwm_user | repeat split]) end.
  destruct G as (G0 & G1 & G2 & G3 & G4 & G5 & G6).
  split; [exact G0|].
  unfold opm_u. rewrite G1, G4, G5, G6. subst s5 s4 s3 s2 s1. cbn.
  rewrite F2. split; [reflexivity|].
  split; [rewrite nth_alter_lt by (rewrite F6; exact Hpins); reflexivity|].
  split; [simplify_map_eq; reflexivity|]. split; [simplify_map_eq; reflexivity|].
  pose proof (F8 pwm) as Fp. pose proof (W4 pwm) as Wp.
  pose proof (F8 icu) as Fi. pose proof (W4 icu) as Wi. cbn in Fp, Wp, Fi, Wi.
  split; apply list_lookup_insert_eq; rewrite ?length_insert; lia.
Qed.

Lemma send_switch_sent send_ok s :
  exists extra, uio_sent (snd (_send_switch_output_req send_ok s)) = uio_sent s ++ extra /\
    (extra = [] \/ exists d, extra = [(SWITCH_OUTPUT_REQ, d)]).
Proof.
  cbv [_send_switch_output_req mbind M_bind get try_except send_can_message modify].
  destruct (send_ok _); cbn.
  - eexists. split; [reflexivity | right; eauto].
  - exists []. split; [symmetry; apply app_nil_r | left; reflexivity].
Qed.

Lemma set_relay_run send_ok p st s :
  wf s -> (p < 8)%nat -> (p < length (pins s))%nat ->
  let r := Pin.set_relay send_ok p st s in
  fst r = inr tt /\
  relay_state (nth p (pins (snd r)) init_pin_state) = st /\
  switch_get vlt_o (_switch_states (snd r)) !! p =
    Some (match st with RelayState.CLOSED => true | _ => false end) /\
  _voltages_out (snd r) = _voltages_out s /\ _op_modes (snd r) = _op_modes s /\
  exists extra, uio_sent (snd r) = uio_sent s ++ extra /\
    (extra = [] \/ exists d, extra = [(SWITCH_OUTPUT_REQ, d)]).
Proof.
  intros (W1 & W2 & W3 & W4) Hp Hpins. cbv zeta. unfold Pin.set_relay.
  rewrite bind_modify_pin.
  match goal with |- context [(_ ≫= _) ?x] => set (s1 := x) end.
  assert (Hb : (p < length (switch_get vlt_o (_switch_states s1)))%nat)
    by (pose proof (W4 vlt_o); subst s1; cbn in *; lia).
  assert (E : (match st with RelayState.CLOSED => assign_switch vlt_o p true
                           | _ => assign_switch vlt_o p false end) s1 =
              (inr tt, set_switch_states (switch_put vlt_o
                 (<[p := match st with RelayState.CLOSED => true | _ => false end]>
                    (switch_get vlt_o (_switch_states s1))) (_switch_states s1)) s1))
    by (destruct st; apply assign_switch_run; exact Hb).
  step E.
  match goal with |- context [_send_switch_output_req _ ?x] => set (s2 := x) end.
  destruct (send_switch_user send_ok s2) as (G0 & G1 & G2 & G3 & G4 & G5 & G6).
  destruct (send_switch_sent send_ok s2) as (extra & X1 & X2).
  split; [exact G0|]. rewrite G6, G5, G2, G1. subst s2 s1. cbn.
  split; [rewrite nth_alter_lt by exact Hpins; reflexivity|].
  split; [apply list_lookup_insert_eq; exact Hb|].
  split; [reflexivity|]. split; [reflexivity|].
  exists extra. split; [exact X1 | exact X2].
Qed.

Lemma uio_send_all_parameters_order s :
  let s' := snd (_send_all_parameters (fun _ => true) s) in
  map fst (uio_sent s') = map fst (uio_sent s) ++
    [OP_MODE_REQ; VOLTAGE_OUT_VAL_REQ; CUR_LOOP_OUT_VAL_REQ; PWM_OUT_VAL_REQ;
     SWITCH_OUTPUT_REQ] /\
  same_user s s'.
Proof.
  cbv [_send_all_parameters _send_op_mode_req _send_voltage_out_req _send_current_out_req
       _send_pwm_out_req _send_switch_output_req mbind M_bind get try_except
       send_can_message modify].
  cbn. rewrite <- !app_assoc, !map_app. split; [reflexivity | repeat split].
Qed.
End UioExtraFacts.


Module ELoadExtraFacts.
Import CanProtocol Device ELoad ELoadFacts.

Lemma send_relay_run send_ok s :
  fst (_send_switch_relay_req send_ok s) = inr tt /\
  _relay_states (snd (_send_switch_relay_req send_ok s)) = _relay_states s /\
  same_shadow s (snd (_send_switch_relay_req send_ok s)).
Proof.
  cbv [_send_switch_relay_req mbind M_bind get try_except send_can_message modify].
  destruct (send_ok _); repeat split.
Qed.

Lemma set_relay_get send_ok r b s :
  0 <= r <= 3 -> length (_relay_states s) = 4%nat ->
  let s' := snd (set_relay send_ok r b s) in
  fst (set_relay send_ok r b s) = inr tt /\ get_relay r s' = Some b /\ same_shadow s s'.
Proof.
  intros Hr Hl. cbv zeta. unfold set_relay.
  replace ((0 <=? r) && (r <=? 3)) with true by lia. cbn [negb].
  assert (E : assign_relay_states (Z.to_nat r) b s =
              (inr tt, set_relay_states (<[Z.to_nat r := b]> (_relay_states s)) s)).
  { unfold assign_relay_states, setitem.
    replace (Nat.ltb (Z.to_nat r) _) with true by (symmetry; apply Nat.ltb_lt; lia).
    reflexivity. }
  rewrite (UioFacts.bind_inr _ _ s _ tt E). cbv beta.
  destruct (send_relay_run send_ok (set_relay_states (<[Z.to_nat r := b]> (_relay_states s)) s))
    as (G0 & G1 & G2 & G3 & G4).
  split; [exact G0|]. split.
  - unfold get_relay. replace ((0 <=? r) && (r <=? 3)) with true by lia. cbn [negb].
    rewrite G1. cbn. f_equal. apply nth_lookup_Some, list_lookup_insert_eq. lia.
  - repeat split; [rewrite G2 | rewrite G3 | rewrite G4]; reflexivity.
Qed.

Lemma set_relay_out_of_range send_ok r b s :
  (r < 0 \/ 3 < r) ->
  set_relay send_ok r b s = (inl ValueError, s) /\ get_relay r s = None.
Proof.
  intros Hr. unfold set_relay, get_relay.
  replace ((0 <=? r) && (r <=? 3)) with false by lia. split; reflexivity.
Qed.

Lemma eload_send_all_parameters_order s :
  let s' := snd (_send_all_parameters (fun _ => true) s) in
  map fst (eload_sent s') = map fst (eload_sent s) ++
    [OP_MODE_REQ; VOLTAGE_ELM_OUT_VAL_REQ; CUR_ELM_OUT_VAL_REQ] /\
  same_shadow s s' /\ _relay_states s' = _relay_states s.
Proof.
  cbv [_send_all_parameters _send_op_mode_req _send_voltage_out_req _send_current_out_req
       mbind M_bind get try_except send_can_message modify].
  cbn. rewrite <- !app_assoc, !map_app. split; [reflexivity | repeat split].
Qed.

Lemma disable_channel send_ok c s :
  (c < length (_voltages_out s))%nat -> (c < length (_currents_out s))%nat ->
  let s' := snd (ELoadChannel.disable send_ok c s) in
  _currents_out s' = <[c := 0%Q]> (_currents_out s) /\
  _voltages_out s' = <[c := 0%Q]> (_voltages_out s) /\
  opm s' c Feature.SET_CURRENT = Some FeatureState.OPERATE /\
  opm s' c Feature.SET_VOLTAGE = Some FeatureState.DISABLED.
Proof.
  intros Hv Hc. cbv zeta. unfold ELoadChannel.disable.
  destruct (set_current_values send_ok c 0 s eq_refl Hv Hc) as [C1 V1].
  destruct (set_current_opm send_ok c 0 s eq_refl) as (O1 & _ & O3 & _).
  auto.
Qed.
End ELoadExtraFacts.


Module TaskMonitorExtraFacts.
Import Device TaskMonitor TaskMonitorFacts.

Lemma add_task_find {C} n (cb : C) p now ts :
  find_task n (add_task n cb p now ts) = Some (mk_task n cb p now true 0) /\
  map name (add_task n cb p now ts) =
    (if existsb (fun t => String.eqb (name t) n) ts then map name ts else map name ts ++ [n]).
Proof.
  unfold add_task, find_task, update_task.
  induction ts as [|a ts IH]; cbn.
  - rewrite String.eqb_refl. split; reflexivity.
  - destruct (String.eqb_spec (name a) n) as [->|Hne]; cbn.
    + rewrite String.eqb_refl. split; [reflexivity|]. f_equal.
      rewrite map_map. apply map_ext.
      intros t. destruct (String.eqb_spec (name t) n) as [->|]; reflexivity.
    + destruct (existsb _ ts) eqn:Ex; cbn.
      * destruct IH as [IH1 IH2].
        replace (String.eqb (name a) n) with false by (symmetry; apply String.eqb_neq; exact Hne).
        split; [exact IH1|]. f_equal. exact IH2.
      * replace (String.eqb (name a) n) with false by (symmetry; apply String.eqb_neq; exact Hne).
        destruct IH as [IH1 IH2]. split; [exact IH1|]. f_equal. exact IH2.
Qed.

Lemma enable_disable_find {C} n m (ts : list (Task C)) :
  find_task m (disable_task n ts) =
    (if String.eqb n m then option_map (set_enabled false) (find_task m ts) else find_task m ts) /\
  find_task m (enable_task n ts) =
    (if String.eqb n m then option_map (set_enabled true) (find_task m ts) else find_task m ts).
Proof.
  unfold disable_task, enable_task. rewrite !find_update by reflexivity. split; reflexivity.
Qed.

Lemma enable_disable_names {C} n (ts : list (Task C)) :
  map name (disable_task n ts) = map name ts /\ map name (enable_task n ts) = map name ts.
Proof. split; apply update_task_names; reflexivity. Qed.

Lemma update_task_absent {C} n f (ts : list (Task C)) :
  n ∉ map name ts -> update_task n f ts = ts.
Proof.
  unfold update_task. induction ts as [|a ts IH]; intros Hn; [reflexivity|].
  cbn in Hn. apply not_elem_of_cons in Hn as [Hna Hn]. cbn.
  destruct (String.eqb_spec (name a) n) as [E|_]; [congruence|]. rewrite (IH Hn). reflexivity.
Qed.
End TaskMonitorExtraFacts.

Module PeriodicExtraFacts.
Import CanProtocol Device TaskMonitor.

Definition module_info_msg : message := (MODULE_INFO_REQ, ModuleInfoData [0; 0; 0; 0; 0; 0]).

Lemma uio_setup_periodic_tasks send_ok now s :
  fst (UIO._setup_periodic_tasks send_ok now [] s) =
    [mk_task "module_info" UIO.request_module_info_cb 4000000 now true 0;
     mk_task "all_parameters" UIO.send_all_parameters_cb 100000 now true 0] /\
  UIO.uio_sent (snd (UIO._setup_periodic_tasks send_ok now [] s)) =
    UIO.uio_sent s ++ (if send_ok module_info_msg then [module_info_msg] else []).
Proof.
  split; [reflexivity|].
  cbv [UIO._setup_periodic_tasks request_module_info try_except send_can_message].
  unfold module_info_msg. destruct (send_ok _); cbn; [reflexivity | symmetry; apply app_nil_r].
Qed.

Lemma eload_setup_periodic_tasks send_ok now s :
  fst (ELoad._setup_periodic_tasks send_ok now [] s) =
    [mk_task "module_info" ELoad.request_module_info_cb 9000000 now true 0;
     mk_task "all_parameters" ELoad.send_all_parameters_cb 100000 now true 0] /\
  ELoad.eload_sent (snd (ELoad._setup_periodic_tasks send_ok now [] s)) =
    ELoad.eload_sent s ++ (if send_ok module_info_msg then [module_info_msg] else []).
Proof.
  split; [reflexivity|].
  cbv [ELoad._setup_periodic_tasks request_module_info try_except send_can_message].
  unfold module_info_msg. destruct (send_ok _); cbn; [reflexivity | symmetry; apply app_nil_r].
Qed.
End PeriodicExtraFacts.

Module SDKExtraFacts.
Import SDK.

Lemma disconnect_connect t t' mac a a' s :
  _connected_devices s !! upper mac = None ->
  let '(d, s1) := connect t mac a s in
  disconnect mac s = (None, s) /\
  d = mk_device (next_oid s) t (upper mac) a /\
  exists s2, disconnect mac s1 = (Some (mk_device (oid d) (dtype d) (dev_mac d) false), s2) /\
    _connected_devices s2 !! upper mac = None /\
    (forall k, k <> upper mac -> _connected_devices s2 !! k = _connected_devices s !! k) /\
    oid (fst (connect t' mac a' s2)) <> oid d.
Proof.
  intros H. unfold connect. rewrite H. cbv zeta.
  split; [unfold disconnect; rewrite H; reflexivity|]. split; [reflexivity|].
  unfold disconnect. cbn [_connected_devices]. rewrite lookup_insert_eq.
  eexists. split; [reflexivity|]. cbn [_connected_devices next_oid].
  split; [apply lookup_delete_eq|]. split.
  - intros k Hk. rewrite lookup_delete_ne, lookup_insert_ne by congruence. reflexivity.
  - rewrite lookup_delete_eq. cbn. lia.
Qed.
End SDKExtraFacts.


Module AvtpAcfExtraFacts.
Import AvtpAcf AvtpAcfFacts.

(** A block whose length_quadlets field gives its own length. *)
Definition self_delim (b : list Z) : Prop :=
  (2 <= length b)%nat /\ Z.land (unpack_H b 0) 0x1FF * 4 = Z.of_nat (length b).

Lemma unpack_H_app b r : (2 <= length b)%nat -> unpack_H (b ++ r) 0 = unpack_H b 0.
Proof. intros H. unfold unpack_H. rewrite !app_nth1 by lia. reflexivity. Qed.

Lemma iter_fuel_concat bs f :
  Forall self_delim bs -> (length bs <= f)%nat -> iter_acf_blocks_fuel f (concat bs) = bs.
Proof.
  revert f. induction bs as [|b bs IH]; intros f Hf Hl.
  - destruct f; reflexivity.
  - inversion Hf as [|? ? [H2 Hq] Hf']; subst.
    destruct f as [|f]; [cbn in Hl; lia|]. cbn [concat iter_acf_blocks_fuel].
    rewrite length_app.
    replace (Nat.leb 2 (length b + length (concat bs))) with true
      by (symmetry; apply Nat.leb_le; lia).
    cbv zeta. rewrite unpack_H_app by exact H2. rewrite Hq.
    replace ((Z.of_nat (length b) <=? 0) || (Z.of_nat (length b + length (concat bs))
               <? Z.of_nat (length b))) with false
      by (symmetry; apply orb_false_iff; split; [apply Z.leb_gt | apply Z.ltb_ge]; lia).
    rewrite Nat2Z.id, take_app_length, drop_app_length. f_equal.
    apply IH; [exact Hf' | cbn in Hl; lia].
Qed.

Lemma concat_length_ge bs : Forall self_delim bs -> (length bs <= length (concat bs))%nat.
Proof.
  induction 1 as [|b bs [H2 _] _ IH]; cbn; [lia|]. rewrite length_app. lia.
Qed.

Lemma iter_bundle bs : Forall self_delim bs -> iter_acf_blocks (bundle_acf bs) = bs.
Proof.
  intros H. unfold iter_acf_blocks, bundle_acf. apply iter_fuel_concat; [exact H|].
  apply concat_length_ge, H.
Qed.

Lemma build_self_delim bus_id can_id data eff fdf brs ts_valid b :
  0 <= bus_id <= 31 -> 0 <= can_id < 2 ^ 29 -> (length data <= 64)%nat ->
  build_acf_can_brief bus_id can_id data eff fdf brs ts_valid = Some b -> self_delim b.
Proof.
  intros Hb Hc Hn E. unfold build_acf_can_brief in E. cbv zeta in E.
  rewrite (take_ge data 64) in E by lia.
  remember (Z.lor (Z.lor (Z.lor (Z.lor 0x00 (if ts_valid then 0x20 else 0))
                                (if eff then 0x08 else 0))
                         (if brs then 0x04 else 0))
                  (if fdf then 0x02 else 0)) as fl eqn:Efl.
  destruct (flags_byte _ _ _ _ _ Efl) as (Hfl & _).
  remember ((2 + 1 + 1 + 4 + Z.of_nat (length data) + 3) / 4) as q eqn:Eq.
  assert (Hq : 2 <= q <= 18).
  { subst q. split.
    - apply Z.div_le_lower_bound; lia.
    - apply Z.lt_succ_r, Z.div_lt_upper_bound; lia. }
  destruct (header_ok q Hq) as (H1 & _ & H3).
  change (2 ^ 29) with 536870912 in Hc.
  rewrite H1, (pack_B_byte fl Hfl), (bus_id_mask bus_id Hb), (pack_B_byte bus_id) in E by lia.
  rewrite pack_I_word in E by (change (2 ^ 32) with 4294967296; lia).
  rewrite pad_loop_spec in E. injection E as <-. unfold self_delim. cbn [app length].
  pose proof (pad_len_ceil (8 + length data)) as Hceil.
  assert (Hq' : q = Z.of_nat ((8 + length data + 3) / 4)).
  { rewrite Eq, Nat2Z.inj_div. f_equal; lia. }
  split; [lia|]. unfold unpack_H. cbn [nth]. rewrite H3.
  rewrite length_app, length_replicate, Hq'.
  change (S (S (S (S (S (S (S (S (length data))))))))) with (8 + length data)%nat. lia.
Qed.

(** One block per request: its bus, identifier, data and flags. *)
Definition brief_ok (sp : Z * Z * list Z * bool * bool * bool * bool) (b : list Z) : Prop :=
  let '(bus_id, can_id, data, eff, fdf, brs, ts_valid) := sp in
  0 <= bus_id <= 31 /\ 0 <= can_id < 2 ^ 29 /\ (length data <= 64)%nat /\
  build_acf_can_brief bus_id can_id data eff fdf brs ts_valid = Some b.

Lemma brief_ok_self_delim sps bs : Forall2 brief_ok sps bs -> Forall self_delim bs.
Proof.
  induction 1 as [|[[[[[[bus cid] d] e] f] br] t] b sps bs Hok _ IH]; constructor; [|exact IH].
  destruct Hok as (H1 & H2 & H3 & H4). eapply build_self_delim; eauto.
Qed.
End AvtpAcfExtraFacts.


Module CanProtocolExtraFacts.
Import CanProtocol CanProtocolFacts.

Lemma in_range_list n k : 0 <= n < Z.of_nat k -> In n (map Z.of_nat (seq 0 k)).
Proof.
  intros H. apply in_map_iff. exists (Z.to_nat n). split; [lia|]. apply in_seq. lia.
Qed.

Lemma forallb_range (f : Z -> bool) k n :
  forallb f (map Z.of_nat (seq 0 k)) = true -> 0 <= n < Z.of_nat k -> f n = true.
Proof. intros H Hn. rewrite forallb_forall in H. apply H, in_range_list, Hn. Qed.

Definition fit_ok (n : Z) : bool :=
  (n <=? get_length_from_dlc (get_dlc_from_length n)) &&
  (0 <=? get_dlc_from_length n) && (get_dlc_from_length n <=? 15) &&
  forallb (fun d => negb (n <=? get_length_from_dlc d) ||
                    (get_length_from_dlc (get_dlc_from_length n) <=? get_length_from_dlc d))
    (map Z.of_nat (seq 0 16)).

Lemma fit_ok_all : forallb fit_ok (map Z.of_nat (seq 0 65)) = true.
Proof. vm_compute. reflexivity. Qed.

Lemma dlc_fit n :
  0 <= n <= 64 ->
  n <= get_length_from_dlc (get_dlc_from_length n) /\
  0 <= get_dlc_from_length n <= 15 /\
  (forall d, 0 <= d <= 15 -> n <= get_length_from_dlc d ->
     get_length_from_dlc (get_dlc_from_length n) <= get_length_from_dlc d).
Proof.
  intros Hn. pose proof (forallb_range fit_ok 65 n fit_ok_all ltac:(lia)) as H.
  unfold fit_ok in H. apply andb_prop in H as [H H3]. apply andb_prop in H as [H H2].
  apply andb_prop in H as [H1 H0]. apply Z.leb_le in H1. apply Z.leb_le in H0.
  apply Z.leb_le in H2. split; [exact H1|]. split; [lia|].
  intros d Hd Hnd. pose proof (forallb_range _ 16 d H3 ltac:(lia)) as Hd'. cbv beta in Hd'.
  apply orb_prop in Hd' as [Hd'|Hd'].
  - apply negb_true_iff, Z.leb_gt in Hd'. lia.
  - apply Z.leb_le, Hd'.
Qed.

Lemma dlc_roundtrip_all :
  forallb (fun d => get_dlc_from_length (get_length_from_dlc d) =? d) (map Z.of_nat (seq 0 16))
  = true.
Proof. vm_compute. reflexivity. Qed.

Lemma dlc_roundtrip d : 0 <= d <= 15 -> get_dlc_from_length (get_length_from_dlc d) = d.
Proof.
  intros Hd. apply Z.eqb_eq, (forallb_range _ 16 d dlc_roundtrip_all). lia.
Qed.

Lemma pgn_value_range p : 0 <= pgn_value p < 2 ^ 18 /\ Z.land (pgn_value p) 0xFF = 0xFE.
Proof. destruct p; vm_compute; (split; [split; congruence | reflexivity]). Qed.

Lemma extract_pgn_build_any (pgn sa prio : Z) :
  0 <= pgn < 2 ^ 18 -> Z.land pgn 0xFF = 0xFE ->
  extract_pgn (build_j1939_id pgn sa 0xFE prio) = pgn.
Proof.
  intros Hr Hlo. pose proof (low_byte_bits _ _ Hlo) as Hl.
  unfold extract_pgn, is_pdu1_format. rewrite pf_build.
  unfold build_j1939_id.
  destruct (_ <? 0xF0); apply Z.bits_inj'; intros n Hn; zbits;
  revert Hl; hide_bits pgn 18; intros Hl; hide_bits_unbounded sa;
  hide_bits_unbounded prio; bits_finish n.
Qed.

Lemma parse_prepare p sa prio :
  0 <= sa <= 255 -> 0 <= prio <= 7 ->
  parse_can_id (prepare_can_id p sa 0xFE prio) = (prio, pgn_value p, sa).
Proof.
  intros Hs Hp. destruct (pgn_value_range p) as [R1 R2].
  unfold parse_can_id, prepare_can_id.
  rewrite extract_priority_build, extract_source_address_build, extract_pgn_build_any
    by assumption.
  reflexivity.
Qed.
End CanProtocolExtraFacts.


(* ================================================================= *)
(** ** Claims on the identifier algebra *)

Module CanProtocolClaims.
Import CanProtocol CanProtocolFacts.

(** C1: for every PGN value [p] of 18 bits whose low byte is the
    wildcard 0xFE, with a PF byte below 0xF0 (PDU1: the wildcard is
    replaced by the destination) or from 0xF0 (PDU2: the PS byte is a
    group extension and is kept), every source and destination address
    in 0..255 and every priority in 0..7, [extract_priority] and
    [extract_source_address] recover the priority and the source address
    from [build_j1939_id p sa da priority], and [extract_pgn] recovers [p]
    from [build_j1939_id p sa 0xFE 3]; and every catalog PGN is such a
    value. *)
Theorem build_j1939_id_catalog_roundtrip (p sa da prio : Z) :
  0 <= p < 2 ^ 18 -> Z.land p 0xFF = 0xFE ->
  0 <= sa <= 255 -> 0 <= da <= 255 -> 0 <= prio <= 7 ->
  extract_priority (build_j1939_id p sa da prio) = prio /\
  extract_source_address (build_j1939_id p sa da prio) = sa /\
  extract_pgn (build_j1939_id p sa 0xFE 3) = p /\
  (forall q : PGN, 0 <= pgn_value q < 2 ^ 18 /\ Z.land (pgn_value q) 0xFF = 0xFE).
Proof.
  intros Hr Hlo Hs Hd Hp. split; [|split; [|split]].
  - apply extract_priority_build; exact Hp.
  - apply extract_source_address_build; exact Hs.
  - apply extract_pgn_build; assumption.
  - intros q. destruct q; (cbn [pgn_value]; split; [lia | reflexivity]).
Qed.

(** At the PDU2 value 0xFEFE (PF 0xFE, group extension 0xFE) and at the
    catalog's PDU1 group OP_MODE_REQ. *)
Lemma build_j1939_id_catalog_roundtrip_witness :
  (extract_priority (build_j1939_id 0xFEFE 0x10 0x20 6) = 6 /\
   extract_source_address (build_j1939_id 0xFEFE 0x10 0x20 6) = 0x10 /\
   extract_pgn (build_j1939_id 0xFEFE 0x10 0xFE 3) = 0xFEFE) /\
  extract_pgn (build_j1939_id (pgn_value OP_MODE_REQ) 0x00 0xFE 3) = pgn_value OP_MODE_REQ.
Proof.
  split.
  - destruct (build_j1939_id_catalog_roundtrip 0xFEFE 0x10 0x20 6) as (H1 & H2 & H3 & _);
      [lia | reflexivity | lia | lia | lia | ].
    split; [exact H1 | split; [exact H2 | exact H3]].
  - destruct (build_j1939_id_catalog_roundtrip (pgn_value OP_MODE_REQ) 0x00 0xFF 3)
      as (_ & _ & H3 & _); [cbn; lia | reflexivity | lia | lia | lia | ].
    exact H3.
Defined.

(** C9: [normalize_can_id_for_dbc] is idempotent, is the identity on
    standard 11-bit identifiers, and on an extended identifier sets the
    source address byte to 0xFE, sets the PS byte (destination address)
    to 0xFE for PDU1 and keeps it (group extension) for PDU2, keeps the
    bits 16..30 (priority, data page, PF), and sets the extended-frame
    marker bit 31 (0x80000000). *)
Theorem normalize_can_id_for_dbc_spec (x : Z) :
  normalize_can_id_for_dbc (normalize_can_id_for_dbc x) = normalize_can_id_for_dbc x /\
  (x <= 0x7FF -> normalize_can_id_for_dbc x = x) /\
  (0x7FF < x ->
     extract_source_address (normalize_can_id_for_dbc x) = 0xFE /\
     Z.land (Z.shiftr (normalize_can_id_for_dbc x) 8) 0xFF
       = (if is_pdu1_format x then 0xFE else Z.land (Z.shiftr x 8) 0xFF) /\
     Z.land (Z.shiftr (normalize_can_id_for_dbc x) 16) 0x7FFF
       = Z.land (Z.shiftr x 16) 0x7FFF /\
     Z.testbit (normalize_can_id_for_dbc x) 31 = true).
Proof.
  split; [|split].
  - destruct (Z_le_gt_dec x 0x7FF) as [Hs | He].
    + rewrite (normalize_standard x Hs). exact (normalize_standard x Hs).
    + assert (He' : 0x7FF < x) by lia.
      rewrite (normalize_extended_eq (normalize_can_id_for_dbc x))
        by (apply normalize_extended; exact He').
      rewrite (normalize_pdu1 x He'), (normalize_extended_eq x He').
      destruct (is_pdu1_format x); apply Z.bits_inj'; intros n Hn; zbits;
      hide_bits_unbounded x; bits_finish n.
  - apply normalize_standard.
  - intros He. rewrite (normalize_extended_eq x He).
    unfold extract_source_address.
    destruct (is_pdu1_format x); refine (conj _ (conj _ (conj _ _)));
      try (rewrite Z.lor_spec; apply orb_true_r);
      apply Z.bits_inj'; intros n Hn; zbits; hide_bits_unbounded x; bits_finish n.
Qed.

Lemma normalize_can_id_for_dbc_spec_witness :
  normalize_can_id_for_dbc 0x123 = 0x123 /\
  extract_source_address (normalize_can_id_for_dbc 0x0C121F00) = 0xFE.
Proof.
  split.
  - apply (normalize_can_id_for_dbc_spec 0x123); lia.
  - apply (normalize_can_id_for_dbc_spec 0x0C121F00); lia.
Defined.

End CanProtocolClaims.

Module AvtpAcfClaims.
Import AvtpAcf AvtpAcfFacts.

(** C2 (amended): for a bus id in 0..31, a 29-bit CAN id, any flags and
    at most 64 data bytes, [build_acf_can_brief] returns a block of
    [8 + |data| + pad] bytes, where [pad < 4] zero bytes bring the length
    to a multiple of 4; the length_quadlets field (low 9 bits of the
    first 16-bit word) is [ceil ((8 + |data|) / 4)], i.e. the block length
    divided by 4. [parse_can_brief] of the block returns the same bus id,
    CAN id and flags (ts/eff/brs/fdf at bits 5/3/2/1) and message type 2,
    but its data is the original data followed by the [pad] zero bytes:
    the data round-trips exactly when [|data|] is a multiple of 4. *)
Theorem build_parse_can_brief (bus_id can_id : Z) (data : list Z)
    (eff fdf brs ts_valid : bool) :
  0 <= bus_id <= 31 -> 0 <= can_id < 2 ^ 29 -> (length data <= 64)%nat ->
  exists block fl,
    build_acf_can_brief bus_id can_id data eff fdf brs ts_valid = Some block /\
    length block = (8 + length data + pad_len (8 + length data))%nat /\
    (pad_len (8 + length data) < 4)%nat /\
    (length block mod 4 = 0)%nat /\
    Z.land (unpack_H block 0) 0x1FF = (8 + Z.of_nat (length data) + 3) / 4 /\
    Z.land (unpack_H block 0) 0x1FF * 4 = Z.of_nat (length block) /\
    parse_can_brief block =
      Some (bus_id, can_id, fl, data ++ replicate (pad_len (8 + length data)) 0, 2) /\
    Z.testbit fl 5 = ts_valid /\ Z.testbit fl 3 = eff /\
    Z.testbit fl 2 = brs /\ Z.testbit fl 1 = fdf /\
    (pad_len (8 + length data) = 0 <-> length data mod 4 = 0)%nat.
Proof.
  intros Hb Hc Hn. unfold build_acf_can_brief. cbv zeta.
  rewrite (take_ge data 64) by lia.
  remember (Z.lor (Z.lor (Z.lor (Z.lor 0x00 (if ts_valid then 0x20 else 0))
                                (if eff then 0x08 else 0))
                         (if brs then 0x04 else 0))
                  (if fdf then 0x02 else 0)) as fl eqn:Efl.
  destruct (flags_byte _ _ _ _ _ Efl) as (Hfl & F5 & F3 & F2 & F1).
  remember ((2 + 1 + 1 + 4 + Z.of_nat (length data) + 3) / 4) as q eqn:Eq.
  assert (Hq : 2 <= q <= 18).
  { subst q. split.
    - apply Z.div_le_lower_bound; lia.
    - apply Z.lt_succ_r, Z.div_lt_upper_bound; lia. }
  destruct (header_ok q Hq) as (H1 & H2 & H3).
  change (2 ^ 29) with 536870912 in Hc.
  rewrite H1, (pack_B_byte fl Hfl), (bus_id_mask bus_id Hb),
    (pack_B_byte bus_id) by lia.
  rewrite pack_I_word by (change (2 ^ 32) with 4294967296; lia).
  rewrite pad_loop_spec.
  cbn [app length].
  pose proof (pad_len_bound (8 + length data)) as [Hp1 Hp2].
  pose proof (pad_len_ceil (8 + length data)) as Hceil.
  assert (Hq' : q = Z.of_nat ((8 + length data + 3) / 4)).
  { rewrite Eq, Nat2Z.inj_div. f_equal; lia. }
  exists (4 :: q :: fl :: bus_id :: Z.land (Z.shiftr can_id 24) 0xFF
            :: Z.land (Z.shiftr can_id 16) 0xFF :: Z.land (Z.shiftr can_id 8) 0xFF
            :: Z.land can_id 0xFF :: data ++ replicate (pad_len (8 + length data)) 0).
  exists fl.
  assert (Hlen : length (4 :: q :: fl :: bus_id :: Z.land (Z.shiftr can_id 24) 0xFF
            :: Z.land (Z.shiftr can_id 16) 0xFF :: Z.land (Z.shiftr can_id 8) 0xFF
            :: Z.land can_id 0xFF :: data ++ replicate (pad_len (8 + length data)) 0)
          = (8 + length data + pad_len (8 + length data))%nat)
    by (cbn [length]; rewrite length_app, length_replicate; lia).
  unfold unpack_H. cbn [nth].
  refine (conj eq_refl (conj Hlen (conj Hp1 (conj _ (conj _ (conj _ (conj _ _))))))).
  - rewrite Hlen. exact Hp2.
  - rewrite H3. exact Eq.
  - rewrite H3, Hlen, Hq', Hceil. lia.
  - unfold parse_can_brief. rewrite Hlen.
    replace (Nat.ltb (8 + length data + pad_len (8 + length data)) 8) with false
      by (symmetry; apply Nat.ltb_ge; lia).
    unfold unpack_H. cbn [nth drop]. rewrite H2, (bus_id_mask bus_id Hb).
    rewrite can_id_bytes by (change (2 ^ 29) with 536870912; lia).
    reflexivity.
  - refine (conj F5 (conj F3 (conj F2 (conj F1 _)))).
    rewrite pad_len_zero_iff.
    replace (8 + length data)%nat with (length data + 2 * 4)%nat by lia.
    rewrite Nat.Div0.mod_add. reflexivity.
Qed.

Lemma build_parse_can_brief_witness :
  exists block fl,
    build_acf_can_brief 5 0x0C121F00 [1; 2; 3; 4; 5] true true false false = Some block /\
    length block = (8 + 5 + pad_len (8 + 5))%nat /\
    (pad_len (8 + 5) < 4)%nat /\
    (length block mod 4 = 0)%nat /\
    Z.land (unpack_H block 0) 0x1FF = (8 + 5 + 3) / 4 /\
    Z.land (unpack_H block 0) 0x1FF * 4 = Z.of_nat (length block) /\
    parse_can_brief block =
      Some (5, 0x0C121F00, fl, [1; 2; 3; 4; 5] ++ replicate (pad_len (8 + 5)) 0, 2) /\
    Z.testbit fl 5 = false /\ Z.testbit fl 3 = true /\
    Z.testbit fl 2 = false /\ Z.testbit fl 1 = true /\
    (pad_len (8 + 5) = 0 <-> 5 mod 4 = 0)%nat.
Proof.
  apply (build_parse_can_brief 5 0x0C121F00 [1; 2; 3; 4; 5] true true false false);
    [lia | vm_compute; split; congruence | cbn; lia].
Defined.

(** C2 counterexample: a one-byte payload comes back from the parser with
    the three padding bytes attached. *)
Lemma build_parse_can_brief_counterexample :
  build_acf_can_brief 0 0x0C121F00 [1] true false false false
    = Some [4; 3; 8; 0; 12; 18; 31; 0; 1; 0; 0; 0] /\
  parse_can_brief [4; 3; 8; 0; 12; 18; 31; 0; 1; 0; 0; 0]
    = Some (0, 0x0C121F00, 8, [1; 0; 0; 0], 2) /\
  [1; 0; 0; 0] <> [1].
Proof.
  split; [vm_compute; reflexivity|]. split; [vm_compute; reflexivity|]. discriminate.
Qed.

End AvtpAcfClaims.

Module UioClaims.
Import Device UIO UioFacts.

(** C3 (code_bug). [Pin.set_voltage] emits no OP_MODE and no SWITCH_OUTPUT
    message: for a well-formed device, a pin below 8 and a voltage in
    0..24, the messages it appends are either none or the single
    VOLTAGE_OUT_VAL_REQ carrying the updated shadow.  The mode and routing
    phases only reach the bus through the periodic [_send_all_parameters]. *)
Theorem set_voltage_sends_only_value send_ok p v s :
  wf s -> (p < 8)%nat -> Pin.in_range 0 24 v = true ->
  exists extra,
    uio_sent (snd (Pin.set_voltage send_ok p v s)) = uio_sent s ++ extra /\
    (extra = [] \/ extra = [voltage_msg (<[p := v]> (_voltages_out s))]).
Proof.
  intros W Hp Hr.
  destruct (set_voltage_step send_ok p v s W Hp Hr) as (_ & _ & _ & E).
  destruct (list_Qeqb _ _); [|destruct (send_ok _)]; injection E as E1 _;
    rewrite E1; eauto using app_nil_r.
Qed.

Lemma set_voltage_sends_only_value_witness :
  (wf init_uio /\ (0 < 8)%nat /\ Pin.in_range 0 24 12 = true) /\
  exists extra,
    uio_sent (snd (Pin.set_voltage (fun _ => true) 0 12 init_uio)) = uio_sent init_uio ++ extra /\
    (extra = [] \/ extra = [voltage_msg (<[0%nat := 12%Q]> (_voltages_out init_uio))]).
Proof.
  split; [split; [exact wf_init_uio | split; [lia | reflexivity]]|].
  apply set_voltage_sends_only_value; [exact wf_init_uio | lia | reflexivity].
Defined.

(** C5. Change detection of [Pin.set_voltage]: the call succeeds and the
    shadow becomes [vo = voltages_out[p := v]]; exactly one VOLTAGE_OUT
    message is appended iff [vo] differs from the last-sent mirror and the
    send succeeds, and only then is the mirror set to [vo] (a failed send
    leaves the mirror as it was); after a successful send, or when nothing
    changed, a second identical call appends nothing and keeps the mirror. *)
Theorem set_voltage_change_detection send_ok p v s :
  wf s -> (p < 8)%nat -> Pin.in_range 0 24 v = true ->
  let vo := <[p := v]> (_voltages_out s) in
  let s1 := snd (Pin.set_voltage send_ok p v s) in
  let s2 := snd (Pin.set_voltage send_ok p v s1) in
  fst (Pin.set_voltage send_ok p v s) = inr tt /\
  (uio_sent s1, _voltages_out_last s1) =
    (if list_Qeqb vo (_voltages_out_last s) then (uio_sent s, _voltages_out_last s)
     else if send_ok (voltage_msg vo) then (uio_sent s ++ [voltage_msg vo], vo)
     else (uio_sent s, _voltages_out_last s)) /\
  (send_ok (voltage_msg vo) = true \/ list_Qeqb vo (_voltages_out_last s) = true ->
   uio_sent s2 = uio_sent s1 /\ _voltages_out_last s2 = _voltages_out_last s1).
Proof.
  intros W Hp Hr vo s1 s2.
  destruct (set_voltage_step send_ok p v s W Hp Hr) as (R & V & W1 & E).
  fold vo s1 in V, W1, E. fold vo.
  split; [exact R|]. split; [exact E|]. intros Hc.
  destruct (set_voltage_step send_ok p v s1 W1 Hp Hr) as (_ & _ & _ & E2).
  fold s2 in E2. rewrite V in E2.
  assert (Ivo : <[p := v]> vo = vo) by apply list_insert_insert_eq.
  clearbody s2 s1 vo. rewrite Ivo in E2.
  destruct (list_Qeqb vo (_voltages_out_last s)) eqn:Eq.
  - injection E as E1 E3. rewrite E3, Eq in E2. injection E2 as -> ->. auto.
  - destruct Hc as [Hc|Hc]; [|discriminate].
    rewrite Hc in E. injection E as E1 E3.
    rewrite E3, list_Qeqb_refl in E2. injection E2 as -> ->. auto.
Qed.

Lemma set_voltage_change_detection_witness :
  (wf init_uio /\ (0 < 8)%nat /\ Pin.in_range 0 24 12 = true) /\
  let vo := <[0%nat := 12%Q]> (_voltages_out init_uio) in
  let s1 := snd (Pin.set_voltage (fun _ => true) 0 12 init_uio) in
  let s2 := snd (Pin.set_voltage (fun _ => true) 0 12 s1) in
  fst (Pin.set_voltage (fun _ => true) 0 12 init_uio) = inr tt /\
  (uio_sent s1, _voltages_out_last s1) =
    (if list_Qeqb vo (_voltages_out_last init_uio)
     then (uio_sent init_uio, _voltages_out_last init_uio)
     else if (fun _ => true) (voltage_msg vo)
     then (uio_sent init_uio ++ [voltage_msg vo], vo)
     else (uio_sent init_uio, _voltages_out_last init_uio)) /\
  ((fun _ => true) (voltage_msg vo) = true \/
   list_Qeqb vo (_voltages_out_last init_uio) = true ->
   uio_sent s2 = uio_sent s1 /\ _voltages_out_last s2 = _voltages_out_last s1).
Proof.
  split; [split; [exact wf_init_uio | split; [lia | reflexivity]]|].
  apply set_voltage_change_detection; [exact wf_init_uio | lia | reflexivity].
Defined.

(** C7. For a well-formed device and a pin below 8, [set_voltage 0] and
    [set_voltage 24] succeed, and a voltage below 0 or above 24 raises
    [ValueError] with the state returned unchanged. *)
Theorem set_voltage_range send_ok p s :
  wf s -> (p < 8)%nat ->
  fst (Pin.set_voltage send_ok p 0 s) = inr tt /\
  fst (Pin.set_voltage send_ok p 24 s) = inr tt /\
  forall v, (v < 0 \/ 24 < v)%Q -> Pin.set_voltage send_ok p v s = (inl ValueError, s).
Proof.
  intros W Hp. split; [|split].
  - apply (set_voltage_step send_ok p 0%Q s W Hp eq_refl).
  - apply (set_voltage_step send_ok p 24%Q s W Hp eq_refl).
  - intros v Hv. exact (set_voltage_out_of_range send_ok p v s Hv).
Qed.

Lemma set_voltage_range_witness :
  (wf init_uio /\ (7 < 8)%nat) /\
  fst (Pin.set_voltage (fun _ => false) 7 0 init_uio) = inr tt /\
  fst (Pin.set_voltage (fun _ => false) 7 24 init_uio) = inr tt /\
  forall v, (v < 0 \/ 24 < v)%Q ->
    Pin.set_voltage (fun _ => false) 7 v init_uio = (inl ValueError, init_uio).
Proof.
  split; [split; [exact wf_init_uio | lia]|].
  apply set_voltage_range; [exact wf_init_uio | lia].
Defined.
End UioClaims.

Module PeriodicClaims.
Import CanProtocol Device.

(** How many messages of a list carry the group [p]. *)
Definition count_pgn (p : PGN) (l : list message) : nat :=
  length (filter (fun m => Z.eqb (pgn_value (fst m)) (pgn_value p)) l).

(** C4 (code_bug). A device started at time 0 with every send succeeding,
    its scheduler loop woken every millisecond for 30 s (the 1 ms sleep of
    [_run]), the clock read as doubles: the UIO emits 8 MODULE_INFO_REQ
    (the immediate one, then every 4 s) and 297 parameter snapshots (a
    0.1 s period; 297 rather than 300 because a difference of two clock
    readings one period apart can round below 0.1 and the task then waits
    one more millisecond: 297 OP_MODE_REQ, 297 SWITCH_OUTPUT_REQ, 1493
    messages in all); the ELoad emits 4 MODULE_INFO_REQ (every 9 s) and
    297 snapshots of three messages each, not the 9 s / 3 s cadence of
    about 3 and 10. *)
Theorem periodic_counts_30s :
  (let '(ts, s) := UIO._setup_periodic_tasks (fun _ => true) (TaskMonitor.clock 0) [] UIO.init_uio in
   let '(_, s') := TaskMonitor.run_every (UIO.run_uio_callback (fun _ => true))
                     30000 1000 1000 ts s in
   (count_pgn MODULE_INFO_REQ (UIO.uio_sent s'), count_pgn OP_MODE_REQ (UIO.uio_sent s'),
    count_pgn SWITCH_OUTPUT_REQ (UIO.uio_sent s'), length (UIO.uio_sent s')))
  = (8%nat, 297%nat, 297%nat, 1493%nat) /\
  (let '(ts, s) := ELoad._setup_periodic_tasks (fun _ => true) (TaskMonitor.clock 0) [] ELoad.init_eload in
   let '(_, s') := TaskMonitor.run_every (ELoad.run_eload_callback (fun _ => true))
                     30000 1000 1000 ts s in
   (count_pgn MODULE_INFO_REQ (ELoad.eload_sent s'), count_pgn OP_MODE_REQ (ELoad.eload_sent s'),
    length (ELoad.eload_sent s')))
  = (4%nat, 297%nat, 895%nat).
Proof. split; vm_compute; reflexivity. Qed.

End PeriodicClaims.

Module ELoadClaims.
Import CanProtocol Device ELoad ELoadFacts.

(** C6. On an ELoad channel the two set-features are mutually exclusive
    at call boundaries: in every state reached from a fresh device by
    periodic rounds and user calls, no channel has both [SET_VOLTAGE] and
    [SET_CURRENT] in [OPERATE]; [set_current c i] (0 <= i <= 10) stores
    [i], zeroes the channel's voltage, puts [SET_CURRENT] in [OPERATE] and
    [SET_VOLTAGE] in [DISABLED]; a following [set_voltage c v]
    (0 <= v <= 24) does the symmetric thing. *)
Theorem eload_mode_exclusion send_ok os c i v :
  (c < 8)%nat -> (Qle_bool 0 i && Qle_bool i 10) = true ->
  (Qle_bool 0 v && Qle_bool v 24) = true ->
  let s := run_ops send_ok os init_eload in
  let s1 := snd (ELoadChannel.set_current send_ok c i s) in
  let s2 := snd (ELoadChannel.set_voltage send_ok c v s1) in
  exclusive s /\
  (_currents_out s1 !! c = Some i /\ _voltages_out s1 !! c = Some 0%Q /\
   opm s1 c Feature.SET_CURRENT = Some FeatureState.OPERATE /\
   opm s1 c Feature.SET_VOLTAGE = Some FeatureState.DISABLED) /\
  (_voltages_out s2 !! c = Some v /\ _currents_out s2 !! c = Some 0%Q /\
   opm s2 c Feature.SET_VOLTAGE = Some FeatureState.OPERATE /\
   opm s2 c Feature.SET_CURRENT = Some FeatureState.DISABLED).
Proof.
  intros Hc Hi Hv s s1 s2.
  destruct (run_ops_init_len send_ok os) as [Lv Lc]. fold s in Lv, Lc.
  split; [apply run_ops_exclusive, exclusive_init|].
  destruct (set_current_values send_ok c i s Hi ltac:(lia) ltac:(lia)) as [C1 V1].
  destruct (set_current_opm send_ok c i s Hi) as (O1 & _ & O3 & _).
  fold s1 in C1, V1, O1, O3.
  destruct (keeps_set_current_len send_ok c i s) as [Lv1 Lc1]. fold s1 in Lv1, Lc1.
  destruct (set_voltage_values send_ok c v s1 Hv ltac:(lia) ltac:(lia)) as [V2 C2].
  destruct (set_voltage_opm send_ok c v s1 Hv) as (O4 & _ & O6 & _).
  fold s2 in V2, C2, O4, O6.
  rewrite C1, V1, V2, C2, !list_lookup_insert_eq by lia. auto 10.
Qed.

Lemma eload_mode_exclusion_witness :
  ((0 < 8)%nat /\ (Qle_bool 0 1 && Qle_bool 1 10) = true /\
   (Qle_bool 0 5 && Qle_bool 5 24) = true) /\
  let s := run_ops (fun _ => true) [Periodic] init_eload in
  let s1 := snd (ELoadChannel.set_current (fun _ => true) 0 1 s) in
  let s2 := snd (ELoadChannel.set_voltage (fun _ => true) 0 5 s1) in
  exclusive s /\
  (_currents_out s1 !! 0%nat = Some 1%Q /\ _voltages_out s1 !! 0%nat = Some 0%Q /\
   opm s1 0 Feature.SET_CURRENT = Some FeatureState.OPERATE /\
   opm s1 0 Feature.SET_VOLTAGE = Some FeatureState.DISABLED) /\
  (_voltages_out s2 !! 0%nat = Some 5%Q /\ _currents_out s2 !! 0%nat = Some 0%Q /\
   opm s2 0 Feature.SET_VOLTAGE = Some FeatureState.OPERATE /\
   opm s2 0 Feature.SET_CURRENT = Some FeatureState.DISABLED).
Proof.
  split; [split; [lia | split; reflexivity]|].
  apply eload_mode_exclusion; [lia | reflexivity | reflexivity].
Defined.
End ELoadClaims.

Module TaskMonitorClaims.
Import Device TaskMonitor TaskMonitorFacts.

(** C8. A task whose callback raises on every invocation, fresh
    ([enabled], [error_count = 0]) in a table with unique names: over
    ticks each of which finds it due ([spaced]: the double
    [current_time - last_run] is at least [period_us / 1e6], the test of
    [_run]), each tick invokes it once and adds one error, and it is
    disabled exactly at the tenth (with ten such ticks it ends disabled
    with [error_count = 10]); a due invocation that succeeds resets
    [error_count] to 0; and every tick takes and releases the lock around
    its bookkeeping only, invoking no callback while it is held. *)
Theorem failing_task_disabled {C W} (run_callback : C -> M W unit) n ts w t times :
  NoDup (map name ts) -> find_task n ts = Some t ->
  enabled t = true -> error_count t = 0 ->
  (forall w, outcome (C := C) (fst (run_callback (callback t) w)) = on_error) ->
  spaced (period_us t) (last_run t) times -> (length times <= 10)%nat ->
  (exists t', find_task n (fst (fst (run_ticks run_callback times ts w))) = Some t' /\
     error_count t' = Z.of_nat (length times) /\
     enabled t' = negb (Nat.eqb (length times) 10)) /\
  (forall now t0 ts0 w0, NoDup (map name ts0) -> find_task n ts0 = Some t0 ->
     (forall w, outcome (C := C) (fst (run_callback (callback t0) w)) = on_success) ->
     due now t0 = true ->
     exists t1, find_task n (fst (fst (tick run_callback now ts0 w0))) = Some t1 /\
       error_count t1 = 0) /\
  (forall times' ts0 w0, lock_ok false (snd (run_ticks run_callback times' ts0 w0)) = true).
Proof.
  intros Hnd Hf He H0 Hcb Hs Hlen. split; [|split].
  - destruct (run_ticks_failing run_callback n times ts w t (last_run t) Hnd Hf Hcb)
      as (t' & H1 & _ & H3 & H4); [rewrite H0; lia | rewrite He, H0; reflexivity | auto | exact Hs |].
    exists t'. split; [exact H1|]. rewrite H0, Z.min_l in H3 by lia. split; [exact H3|].
    rewrite H4, H3. destruct (Nat.eqb_spec (length times) 10) as [->|Hne]; [reflexivity|].
    apply Z.ltb_lt. lia.
  - intros now t0 ts0 w0 Hnd0 Hf0 Hcb0 Hd.
    destruct (tick_success_resets run_callback now n t0 ts0 w0 Hnd0 Hf0 Hcb0 Hd)
      as (t1 & H1 & H2 & _). eauto.
  - intros. apply run_ticks_lock_ok.
Qed.

Definition always_fails (_ : unit) : M unit unit := raise ValueError.
Definition poll_task : Task unit := mk_task "poll" tt 100000 (clock 0) true 0.
(** Clock readings 0.15 s apart. *)
Definition poll_times : list float := map (fun k => clock (150000 * Z.of_nat k)) (seq 1 10).

Lemma failing_task_disabled_witness :
  (NoDup (map name [poll_task]) /\ find_task "poll" [poll_task] = Some poll_task /\
   enabled poll_task = true /\ error_count poll_task = 0 /\
   (forall w, outcome (C := unit) (fst (always_fails (callback poll_task) w)) = on_error) /\
   spaced (period_us poll_task) (last_run poll_task) poll_times /\
   (length poll_times <= 10)%nat) /\
  ((exists t', find_task "poll" (fst (fst (run_ticks always_fails poll_times [poll_task] tt)))
                 = Some t' /\
     error_count t' = Z.of_nat (length poll_times) /\
     enabled t' = negb (Nat.eqb (length poll_times) 10)) /\
   (forall now t0 ts0 w0, NoDup (map name ts0) -> find_task "poll" ts0 = Some t0 ->
     (forall w, outcome (C := unit) (fst (always_fails (callback t0) w)) = on_success) ->
     due now t0 = true ->
     exists t1, find_task "poll" (fst (fst (tick always_fails now ts0 w0))) = Some t1 /\
       error_count t1 = 0) /\
   (forall times' ts0 w0, lock_ok false (snd (run_ticks always_fails times' ts0 w0)) = true)).
Proof.
  assert (Hnd : NoDup (map name [poll_task])) by (constructor; [set_solver | constructor]).
  assert (Hcb : forall w, outcome (C := unit) (fst (always_fails (callback poll_task) w)) = on_error)
    by reflexivity.
  assert (Hs : spaced (period_us poll_task) (last_run poll_task) poll_times)
    by (vm_compute; repeat split).
  split; [repeat split; auto; cbn; lia|].
  apply (failing_task_disabled always_fails "poll" [poll_task] tt poll_task poll_times); auto; cbn; lia.
Defined.


(** C8 counterexample: a 0.1 s task whose callback always raises, added
    at time 0. In the loop's 1 ms rhythm, after 10 ticks it has not yet
    been due once and is still enabled. With ticks exactly one period
    apart (clock readings 0.1, 0.2, ..., 1.0 s) it is still enabled after
    10 ticks with [error_count = 6]: [0.3 - 0.2 < 0.1] in doubles, so four
    of those ticks skip it. *)
Lemma failing_task_disabled_counterexample :
  map (fun t => (enabled t, error_count t))
    (fst (fst (run_ticks always_fails (map (fun k => clock (1000 * Z.of_nat k)) (seq 1 10))
                 [mk_task "poll" tt 100000 (clock 0) true 0] tt))) = [(true, 0)] /\
  map (fun t => (enabled t, error_count t))
    (fst (fst (run_ticks always_fails (map (fun k => clock (100000 * Z.of_nat k)) (seq 1 10))
                 [mk_task "poll" tt 100000 (clock 0) true 0] tt))) = [(true, 6)].
Proof. split; vm_compute; reflexivity. Qed.
End TaskMonitorClaims.

Module SDKClaims.
Import SDK SDKFacts.

(** C10. The three [connect_*] share one map keyed by the upper-cased MAC
    and check no device type: once [m1] is connected through
    [connect_uio], a MAC [m2] with the same upper-case form gets the very
    same object back from [connect_uio], [connect_eload] and
    [connect_ifmux], with the facade's state unchanged; if [m1] was new,
    that object is the UIO device just created. *)
Theorem connect_shared_map m1 m2 a1 a2 s :
  upper m1 = upper m2 ->
  let '(d1, s1) := connect_uio m1 a1 s in
  connect_uio m2 a2 s1 = (d1, s1) /\
  connect_eload m2 a2 s1 = (d1, s1) /\
  connect_ifmux m2 a2 s1 = (d1, s1) /\
  (_connected_devices s !! upper m1 = None -> dtype d1 = UIO_T).
Proof.
  intros Hu. pose proof (connect_lookup UIO_T m1 a1 s) as Hl.
  pose proof (connect_new UIO_T m1 a1 s) as Hn.
  unfold connect_uio, connect_eload, connect_ifmux.
  destruct (connect UIO_T m1 a1 s) as [d1 s1]. cbn in Hl, Hn. rewrite Hu in Hl.
  rewrite !(connect_existing _ m2 a2 s1 d1 Hl). auto.
Qed.

Lemma connect_shared_map_witness :
  upper "82:7b:c4:b1:92:f2" = upper "82:7B:C4:B1:92:F2" /\
  let '(d1, s1) := connect_uio "82:7b:c4:b1:92:f2" false init_sdrig in
  connect_uio "82:7B:C4:B1:92:F2" true s1 = (d1, s1) /\
  connect_eload "82:7B:C4:B1:92:F2" true s1 = (d1, s1) /\
  connect_ifmux "82:7B:C4:B1:92:F2" true s1 = (d1, s1) /\
  (_connected_devices init_sdrig !! upper "82:7b:c4:b1:92:f2" = None -> dtype d1 = UIO_T).
Proof.
  split; [reflexivity|]. apply connect_shared_map. reflexivity.
Defined.
End SDKClaims.

Module UioExtras.
Import CanProtocol Device UIO UioFacts UioExtraFacts.

(** [Pin.set_tx_current] on a well-formed UIO, a pin in 0..7 and a current
    in 0..20 mA returns normally, stores the current in [_currents_out],
    puts SET_CURRENT in OPERATE and closes the [cur_o] switch of the pin,
    but writes 0.0 to the pin's [state.current.set_value], so
    [get_tx_current] returns 0 afterwards. *)
Theorem set_tx_current_reports_zero send_ok p i s :
  wf s -> (p < 8)%nat -> Pin.in_range 0 20 i = true ->
  let r := Pin.set_tx_current send_ok p i s in
  fst r = inr tt /\ _currents_out (snd r) = <[p := i]> (_currents_out s) /\
  Pin.get_tx_current p (snd r) = 0%Q /\
  opm_u (snd r) p Feature.SET_CURRENT = Some FeatureState.OPERATE /\
  switch_get cur_o (_switch_states (snd r)) !! p = Some true.
Proof. apply set_tx_current_run. Qed.

Lemma set_tx_current_reports_zero_witness :
  (wf init_uio /\ (2 < 8)%nat /\ Pin.in_range 0 20 5 = true) /\
  let r := Pin.set_tx_current (fun _ => true) 2 5 init_uio in
  fst r = inr tt /\ _currents_out (snd r) = <[2%nat := 5%Q]> (_currents_out init_uio) /\
  Pin.get_tx_current 2 (snd r) = 0%Q /\
  opm_u (snd r) 2 Feature.SET_CURRENT = Some FeatureState.OPERATE /\
  switch_get cur_o (_switch_states (snd r)) !! 2%nat = Some true.
Proof.
  split; [split; [apply wf_init_uio | split; [lia | reflexivity]]|].
  apply set_tx_current_reports_zero; [apply wf_init_uio | lia | reflexivity].
Defined.

(** [Pin.set_pwm] with a frequency in 0..5000 Hz and a duty cycle in
    0..100 % on a pin in 0..7 returns normally and stores the triple
    [(frequency, duty_cycle, 5.0)] whatever voltage was passed; the pin's
    PWM voltage is 5.0, SET_PWM and GET_PWM are in OPERATE and the [pwm]
    and [icu] switches of the pin are closed. *)
Theorem set_pwm_fixed_5v send_ok p f d v s :
  wf s -> (p < 8)%nat -> (p < length (pins s))%nat ->
  Pin.in_range 0 5000 f = true -> Pin.in_range 0 100 d = true ->
  let r := Pin.set_pwm send_ok p f d v s in
  fst r = inr tt /\ _pwm_out (snd r) = <[p := (f, d, 5%Q)]> (_pwm_out s) /\
  pwm_voltage_set (nth p (pins (snd r)) init_pin_state) = 5%Q /\
  opm_u (snd r) p Feature.SET_PWM = Some FeatureState.OPERATE /\
  opm_u (snd r) p Feature.GET_PWM = Some FeatureState.OPERATE /\
  switch_get pwm (_switch_states (snd r)) !! p = Some true /\
  switch_get icu (_switch_states (snd r)) !! p = Some true.
Proof. apply set_pwm_run. Qed.

Lemma set_pwm_fixed_5v_witness :
  (wf init_uio /\ (1 < 8)%nat /\ (1 < length (pins init_uio))%nat /\
   Pin.in_range 0 5000 1000 = true /\ Pin.in_range 0 100 50 = true) /\
  let r := Pin.set_pwm (fun _ => true) 1 1000 50 12 init_uio in
  fst r = inr tt /\ _pwm_out (snd r) = <[1%nat := (1000%Q, 50%Q, 5%Q)]> (_pwm_out init_uio) /\
  pwm_voltage_set (nth 1 (pins (snd r)) init_pin_state) = 5%Q /\
  opm_u (snd r) 1 Feature.SET_PWM = Some FeatureState.OPERATE /\
  opm_u (snd r) 1 Feature.GET_PWM = Some FeatureState.OPERATE /\
  switch_get pwm (_switch_states (snd r)) !! 1%nat = Some true /\
  switch_get icu (_switch_states (snd r)) !! 1%nat = Some true.
Proof.
  split; [split; [apply wf_init_uio | repeat split; cbn; lia || reflexivity]|].
  apply set_pwm_fixed_5v; [apply wf_init_uio | lia | cbn; lia | reflexivity | reflexivity].
Defined.

(** [Pin.set_relay] on a pin in 0..7 returns normally, records the relay
    state on the pin, sets the pin's [vlt_o] switch exactly when the state
    is CLOSED, leaves the output voltages and op-modes alone, and sends at
    most one message, a SWITCH_OUTPUT request. *)
Theorem pin_set_relay_effect send_ok p st s :
  wf s -> (p < 8)%nat -> (p < length (pins s))%nat ->
  let r := Pin.set_relay send_ok p st s in
  fst r = inr tt /\
  relay_state (nth p (pins (snd r)) init_pin_state) = st /\
  switch_get vlt_o (_switch_states (snd r)) !! p =
    Some (match st with RelayState.CLOSED => true | _ => false end) /\
  _voltages_out (snd r) = _voltages_out s /\ _op_modes (snd r) = _op_modes s /\
  exists extra, uio_sent (snd r) = uio_sent s ++ extra /\
    (extra = [] \/ exists d, extra = [(SWITCH_OUTPUT_REQ, d)]).
Proof. apply set_relay_run. Qed.

Lemma pin_set_relay_effect_witness :
  (wf init_uio /\ (3 < 8)%nat /\ (3 < length (pins init_uio))%nat) /\
  let r := Pin.set_relay (fun _ => true) 3 RelayState.CLOSED init_uio in
  fst r = inr tt /\
  relay_state (nth 3 (pins (snd r)) init_pin_state) = RelayState.CLOSED /\
  switch_get vlt_o (_switch_states (snd r)) !! 3%nat = Some true /\
  _voltages_out (snd r) = _voltages_out init_uio /\ _op_modes (snd r) = _op_modes init_uio /\
  exists extra, uio_sent (snd r) = uio_sent init_uio ++ extra /\
    (extra = [] \/ exists d, extra = [(SWITCH_OUTPUT_REQ, d)]).
Proof.
  split; [split; [apply wf_init_uio | split; cbn; lia]|].
  apply (pin_set_relay_effect (fun _ => true) 3 RelayState.CLOSED init_uio);
    [apply wf_init_uio | lia | cbn; lia].
Defined.

(** The UIO's periodic [_send_all_parameters], with every send
    succeeding, sends OP_MODE, VOLTAGE_OUT, CUR_LOOP_OUT, PWM_OUT and
    SWITCH_OUTPUT requests in that order and changes none of the
    user-visible shadow (op-modes, values, switches, pins). *)
Theorem uio_snapshot_order s :
  let s' := snd (_send_all_parameters (fun _ => true) s) in
  map fst (uio_sent s') = map fst (uio_sent s) ++
    [OP_MODE_REQ; VOLTAGE_OUT_VAL_REQ; CUR_LOOP_OUT_VAL_REQ; PWM_OUT_VAL_REQ;
     SWITCH_OUTPUT_REQ] /\
  same_user s s'.
Proof. apply uio_send_all_parameters_order. Qed.

(** [Pin.disable_all_features] never raises (each feature is disabled
    under its own try/except) and changes only op-modes and switch
    contents: values, last-sent mirrors, pin states, sent messages and the
    switch list lengths stay as they were. *)
Theorem disable_all_features_keeps_values p s :
  exists s', Pin.disable_all_features p s = (inr tt, s') /\ frame s s'.
Proof. apply disable_all_features_run. Qed.
End UioExtras.

Module ELoadExtras.
Import CanProtocol Device ELoad ELoadFacts ELoadExtraFacts.

(** [set_relay] on a relay id in 0..3 returns normally and [get_relay]
    then reads back the value written; op-modes, output voltages and
    currents are unchanged. *)
Theorem eload_relay_roundtrip send_ok r b s :
  0 <= r <= 3 -> length (_relay_states s) = 4%nat ->
  let s' := snd (set_relay send_ok r b s) in
  fst (set_relay send_ok r b s) = inr tt /\ get_relay r s' = Some b /\ same_shadow s s'.
Proof. apply set_relay_get. Qed.

Lemma eload_relay_roundtrip_witness :
  (0 <= 2 <= 3 /\ length (_relay_states init_eload) = 4%nat) /\
  let s' := snd (set_relay (fun _ => true) 2 true init_eload) in
  fst (set_relay (fun _ => true) 2 true init_eload) = inr tt /\
  get_relay 2 s' = Some true /\ same_shadow init_eload s'.
Proof.
  split; [split; [lia | reflexivity]|].
  apply eload_relay_roundtrip; [lia | reflexivity].
Defined.

(** [set_relay] and [get_relay] outside 0..3 raise ValueError, and
    [set_relay] leaves the device untouched. *)
Theorem eload_relay_out_of_range send_ok r b s :
  (r < 0 \/ 3 < r) ->
  set_relay send_ok r b s = (inl ValueError, s) /\ get_relay r s = None.
Proof. apply set_relay_out_of_range. Qed.

Lemma eload_relay_out_of_range_witness :
  (4 < 0 \/ 3 < 4) /\
  set_relay (fun _ => true) 4 true init_eload = (inl ValueError, init_eload) /\
  get_relay 4 init_eload = None.
Proof. split; [lia|]. apply eload_relay_out_of_range. lia. Defined.

(** The ELoad's periodic [_send_all_parameters], with every send
    succeeding, sends OP_MODE, VOLTAGE_ELM_OUT and CUR_ELM_OUT requests in
    that order (no relay request) and changes neither the shadow nor the
    relay states. *)
Theorem eload_snapshot_order s :
  let s' := snd (_send_all_parameters (fun _ => true) s) in
  map fst (eload_sent s') = map fst (eload_sent s) ++
    [OP_MODE_REQ; VOLTAGE_ELM_OUT_VAL_REQ; CUR_ELM_OUT_VAL_REQ] /\
  same_shadow s s' /\ _relay_states s' = _relay_states s.
Proof. apply eload_send_all_parameters_order. Qed.

(** [ELoadChannel.disable] is [set_current(0)]: it zeroes the channel's
    current and voltage, and leaves SET_CURRENT in OPERATE with
    SET_VOLTAGE DISABLED. *)
Theorem eload_disable_channel send_ok c s :
  (c < length (_voltages_out s))%nat -> (c < length (_currents_out s))%nat ->
  let s' := snd (ELoadChannel.disable send_ok c s) in
  _currents_out s' = <[c := 0%Q]> (_currents_out s) /\
  _voltages_out s' = <[c := 0%Q]> (_voltages_out s) /\
  opm s' c Feature.SET_CURRENT = Some FeatureState.OPERATE /\
  opm s' c Feature.SET_VOLTAGE = Some FeatureState.DISABLED.
Proof. apply disable_channel. Qed.

Lemma eload_disable_channel_witness :
  ((5 < length (_voltages_out init_eload))%nat /\ (5 < length (_currents_out init_eload))%nat) /\
  let s' := snd (ELoadChannel.disable (fun _ => true) 5 init_eload) in
  _currents_out s' = <[5%nat := 0%Q]> (_currents_out init_eload) /\
  _voltages_out s' = <[5%nat := 0%Q]> (_voltages_out init_eload) /\
  opm s' 5 Feature.SET_CURRENT = Some FeatureState.OPERATE /\
  opm s' 5 Feature.SET_VOLTAGE = Some FeatureState.DISABLED.
Proof.
  split; [split; cbn; lia|].
  apply eload_disable_channel; cbn; lia.
Defined.
End ELoadExtras.

Module PeriodicExtras.
Import CanProtocol Device TaskMonitor PeriodicExtraFacts.

(** [DeviceUIO._setup_periodic_tasks] on an empty monitor sends one
    MODULE_INFO request at once and registers "module_info" with period
    4 000 000 us and "all_parameters" with period 100 000 us, both
    enabled, error-free and last run at the start time. *)
Theorem uio_periodic_setup send_ok now s :
  fst (UIO._setup_periodic_tasks send_ok now [] s) =
    [mk_task "module_info" UIO.request_module_info_cb 4000000 now true 0;
     mk_task "all_parameters" UIO.send_all_parameters_cb 100000 now true 0] /\
  UIO.uio_sent (snd (UIO._setup_periodic_tasks send_ok now [] s)) =
    UIO.uio_sent s ++ (if send_ok module_info_msg then [module_info_msg] else []).
Proof. apply uio_setup_periodic_tasks. Qed.

(** [DeviceELoad._setup_periodic_tasks] does the same with periods
    9 000 000 us and 100 000 us. *)
Theorem eload_periodic_setup send_ok now s :
  fst (ELoad._setup_periodic_tasks send_ok now [] s) =
    [mk_task "module_info" ELoad.request_module_info_cb 9000000 now true 0;
     mk_task "all_parameters" ELoad.send_all_parameters_cb 100000 now true 0] /\
  ELoad.eload_sent (snd (ELoad._setup_periodic_tasks send_ok now [] s)) =
    ELoad.eload_sent s ++ (if send_ok module_info_msg then [module_info_msg] else []).
Proof. apply eload_setup_periodic_tasks. Qed.
End PeriodicExtras.

Module TaskMonitorExtras.
Import Device TaskMonitor TaskMonitorFacts TaskMonitorExtraFacts.

(** [add_task] makes the named task a fresh one (enabled, error count 0,
    last run now); a new name is appended, an existing one is replaced in
    place, so the table's names keep their order. *)
Theorem add_task_registers {C} n (cb : C) p now ts :
  find_task n (add_task n cb p now ts) = Some (mk_task n cb p now true 0) /\
  map name (add_task n cb p now ts) =
    (if existsb (fun t => String.eqb (name t) n) ts then map name ts else map name ts ++ [n]).
Proof. apply add_task_find. Qed.

(** [disable_task n] and [enable_task n] set the [enabled] flag of the
    task named [n] and change nothing else: the task found under any
    other name is the same, the table keeps its names in order, and for
    an unknown name the table is returned unchanged. *)
Theorem enable_disable_task_flag {C} n (ts : list (Task C)) :
  (forall m, find_task m (disable_task n ts) =
     if String.eqb n m then option_map (set_enabled false) (find_task m ts)
     else find_task m ts) /\
  (forall m, find_task m (enable_task n ts) =
     if String.eqb n m then option_map (set_enabled true) (find_task m ts)
     else find_task m ts) /\
  map name (disable_task n ts) = map name ts /\ map name (enable_task n ts) = map name ts /\
  (n ∉ map name ts -> disable_task n ts = ts /\ enable_task n ts = ts).
Proof.
  split; [intros m; apply enable_disable_find|].
  split; [intros m; apply enable_disable_find|].
  split; [apply enable_disable_names|]. split; [apply enable_disable_names|].
  intros Hn. split; apply update_task_absent; exact Hn.
Qed.

(** The collection pass of [_run] stamps [last_run = now] on exactly the
    due tasks ([due]: enabled, and [now - last_run >= period_us / 1e6]
    computed in doubles as the code does, which can fail when the exact
    difference is one period: [0.3 - 0.2 < 0.1]), leaves the others
    unchanged and keeps the table's names. *)
Theorem collect_marks_due {C} now n (ts : list (Task C)) :
  find_task n (fst (collect now ts)) =
    option_map (fun t => if due now t then set_last_run now t else t) (find_task n ts) /\
  map name (fst (collect now ts)) = map name ts.
Proof. split; [apply collect_find | apply collect_names]. Qed.

(** A whole pass of [_run] neither adds nor removes tasks. *)
Theorem tick_keeps_task_names {C W} (run_callback : C -> M W unit) now ts w :
  map name (fst (fst (tick run_callback now ts w))) = map name ts.
Proof. apply tick_names. Qed.
End TaskMonitorExtras.

Module SDKExtras.
Import SDK SDKExtraFacts.

(** For a MAC not yet connected: [disconnect] only logs; [connect] creates
    a new object of the requested class under the upper-cased MAC;
    disconnecting it returns it stopped and removes only its entry; and a
    later [connect] of the same MAC creates a different object. *)
Theorem disconnect_then_reconnect t t' mac a a' s :
  _connected_devices s !! upper mac = None ->
  let '(d, s1) := connect t mac a s in
  disconnect mac s = (None, s) /\
  d = mk_device (next_oid s) t (upper mac) a /\
  exists s2, disconnect mac s1 = (Some (mk_device (oid d) (dtype d) (dev_mac d) false), s2) /\
    _connected_devices s2 !! upper mac = None /\
    (forall k, k <> upper mac -> _connected_devices s2 !! k = _connected_devices s !! k) /\
    oid (fst (connect t' mac a' s2)) <> oid d.
Proof. apply disconnect_connect. Qed.

Lemma disconnect_then_reconnect_witness :
  _connected_devices init_sdrig !! upper "82:7b:c4:b1:92:f2" = None /\
  let '(d, s1) := connect UIO_T "82:7b:c4:b1:92:f2" true init_sdrig in
  disconnect "82:7b:c4:b1:92:f2" init_sdrig = (None, init_sdrig) /\
  d = mk_device (next_oid init_sdrig) UIO_T (upper "82:7b:c4:b1:92:f2") true /\
  exists s2, disconnect "82:7b:c4:b1:92:f2" s1
      = (Some (mk_device (oid d) (dtype d) (dev_mac d) false), s2) /\
    _connected_devices s2 !! upper "82:7b:c4:b1:92:f2" = None /\
    (forall k, k <> upper "82:7b:c4:b1:92:f2" ->
       _connected_devices s2 !! k = _connected_devices init_sdrig !! k) /\
    oid (fst (connect ELOAD_T "82:7b:c4:b1:92:f2" false s2)) <> oid d.
Proof. split; [reflexivity|]. apply disconnect_then_reconnect. reflexivity. Defined.
End SDKExtras.

Module AvtpAcfExtras.
Import AvtpAcf AvtpAcfFacts AvtpAcfExtraFacts.

(** Bundling CAN Brief blocks built from valid requests (bus id 0..31,
    29-bit CAN id, at most 64 data bytes) with [bundle_acf] and splitting
    the payload with [iter_acf_blocks] gives the blocks back, in order. *)
Theorem bundle_split_roundtrip sps bs :
  Forall2 brief_ok sps bs -> iter_acf_blocks (bundle_acf bs) = bs.
Proof. intros H. apply iter_bundle, (brief_ok_self_delim sps), H. Qed.

Lemma bundle_split_roundtrip_witness :
  Forall2 brief_ok [(1, 0x0C121F00, [1; 2; 3], true, false, false, false);
                    (2, 0x18FEF100, [9; 8; 7; 6; 5; 4; 3; 2; 1], true, true, true, false)]
    [[4; 3; 8; 1; 12; 18; 31; 0; 1; 2; 3; 0];
     [4; 5; 14; 2; 24; 254; 241; 0; 9; 8; 7; 6; 5; 4; 3; 2; 1; 0; 0; 0]] /\
  iter_acf_blocks (bundle_acf
    [[4; 3; 8; 1; 12; 18; 31; 0; 1; 2; 3; 0];
     [4; 5; 14; 2; 24; 254; 241; 0; 9; 8; 7; 6; 5; 4; 3; 2; 1; 0; 0; 0]]) =
    [[4; 3; 8; 1; 12; 18; 31; 0; 1; 2; 3; 0];
     [4; 5; 14; 2; 24; 254; 241; 0; 9; 8; 7; 6; 5; 4; 3; 2; 1; 0; 0; 0]].
Proof.
  assert (H : Forall2 brief_ok [(1, 0x0C121F00, [1; 2; 3], true, false, false, false);
                    (2, 0x18FEF100, [9; 8; 7; 6; 5; 4; 3; 2; 1], true, true, true, false)]
    [[4; 3; 8; 1; 12; 18; 31; 0; 1; 2; 3; 0];
     [4; 5; 14; 2; 24; 254; 241; 0; 9; 8; 7; 6; 5; 4; 3; 2; 1; 0; 0; 0]]).
  { repeat constructor; try lia; vm_compute; reflexivity. }
  split; [exact H | apply (bundle_split_roundtrip _ _ H)].
Defined.
End AvtpAcfExtras.

Module CanProtocolExtras.
Import CanProtocol CanProtocolFacts CanProtocolExtraFacts.

(** For a CAN-FD payload of 0..64 bytes, [get_dlc_from_length] gives a
    DLC in 0..15 whose length ([get_length_from_dlc]) holds the payload
    and is the smallest such length among all DLCs 0..15. *)
Theorem dlc_smallest_fit n :
  0 <= n <= 64 ->
  n <= get_length_from_dlc (get_dlc_from_length n) /\
  0 <= get_dlc_from_length n <= 15 /\
  (forall d, 0 <= d <= 15 -> n <= get_length_from_dlc d ->
     get_length_from_dlc (get_dlc_from_length n) <= get_length_from_dlc d).
Proof. apply dlc_fit. Qed.

Lemma dlc_smallest_fit_witness :
  0 <= 13 <= 64 /\
  13 <= get_length_from_dlc (get_dlc_from_length 13) /\
  0 <= get_dlc_from_length 13 <= 15 /\
  (forall d, 0 <= d <= 15 -> 13 <= get_length_from_dlc d ->
     get_length_from_dlc (get_dlc_from_length 13) <= get_length_from_dlc d).
Proof. split; [lia|]. apply dlc_smallest_fit. lia. Defined.

(** [get_dlc_from_length] inverts [get_length_from_dlc] on the DLCs 0..15. *)
Theorem dlc_length_roundtrip d :
  0 <= d <= 15 -> get_dlc_from_length (get_length_from_dlc d) = d.
Proof. apply dlc_roundtrip. Qed.

Lemma dlc_length_roundtrip_witness :
  0 <= 11 <= 15 /\ get_dlc_from_length (get_length_from_dlc 11) = 11.
Proof. split; [lia|]. apply dlc_length_roundtrip. lia. Defined.

(** [parse_can_id] of [prepare_can_id] for any catalog PGN, destination
    0xFE, source address 0..255 and priority 0..7 gives back
    [(priority, pgn, source address)]. *)
Theorem parse_prepare_can_id p sa prio :
  0 <= sa <= 255 -> 0 <= prio <= 7 ->
  parse_can_id (prepare_can_id p sa 0xFE prio) = (prio, pgn_value p, sa).
Proof. apply parse_prepare. Qed.

Lemma parse_prepare_can_id_witness :
  (0 <= 0x42 <= 255 /\ 0 <= 6 <= 7) /\
  parse_can_id (prepare_can_id VOLTAGE_OUT_VAL_REQ 0x42 0xFE 6)
    = (6, pgn_value VOLTAGE_OUT_VAL_REQ, 0x42).
Proof. split; [lia|]. apply parse_prepare_can_id; lia. Defined.
End CanProtocolExtras.
